(** * Tracking service: chain logic, overlap prevention and overlap detection

    A shallow embedding of [src/services/trackingService.ts] together with
    the storage rules of [database/migrations/001_add_tracking_constraints.sql]
    that the service relies on.  The table [trackings] is a finite map from
    the primary key [id] to the remaining columns; every [await db.query(...)]
    of the service is a statement run against that table.  Calls to [logger]
    touch neither the table nor the result of a call and are left out. *)

From stdpp Require Import base gmap strings list sorting.
From Stdlib Require Import ZArith Lia.

Local Open Scope Z_scope.

(** ** Data model *)

(** A JavaScript [Date] / SQL [timestamp]: time elapsed since a fixed origin,
    counted in one fixed unit. *)
Definition Date : Type := Z.

(** [interface TrackingData]: the payload of a scan.  [user_id] is optional,
    [None] is the absent (undefined) field. *)
Module TrackingData.
Record t : Type := mk {
  puesto_id : Z;
  lote : string;
  instancia : Z;
  version : Z;
  fecha_inicio : Date;
  user_id : option Z
}.
End TrackingData.

(** The columns of table [trackings] other than the primary key. *)
Record Row : Type := mkRow {
  puesto_id : Z;
  lote : string;
  instancia : Z;
  version : Z;
  fecha_inicio : Date;
  fecha_final : option Date;
  user_id : option Z;
  closure_reason : option string;
  created_at : Date;
  updated_at : Date
}.

(** [interface TrackingRecord]: a row as the client returns it, primary key
    included. *)
Record TrackingRecord : Type := mkTrackingRecord {
  id : Z;
  row :> Row
}.

(** The database as the service sees it: the table and the server clock read
    by [CURRENT_TIMESTAMP]. *)
Record Db : Type := mkDb {
  trackings : gmap Z Row;
  current_timestamp : Date
}.

#[global] Instance Row_eq_dec : EqDecision Row.
Proof. solve_decision. Defined.

#[global] Instance TrackingRecord_eq_dec : EqDecision TrackingRecord.
Proof. solve_decision. Defined.

(** The window identity [(lote, instancia, version)] of a row and of a scan. *)
Definition window (r : Row) : string * Z * Z :=
  (lote r, instancia r, version r).

Definition scanned_window (data : TrackingData.t) : string * Z * Z :=
  (TrackingData.lote data, TrackingData.instancia data,
   TrackingData.version data).

Definition is_open (r : Row) : bool :=
  match fecha_final r with None => true | Some _ => false end.

(** ** Errors

    The service only ever throws plain [Error] objects built from a message
    template; the storage client rejects a statement with an error object that
    carries the SQLSTATE in [code] and the violated constraint's name. *)
Inductive Message : Type :=
| CannotCreateTracking
    (workstation : Z) (occ_lote : string) (occ_instancia occ_version : Z)
    (occ_fecha_inicio : Date)
| DatabaseConstraintViolation.

Inductive JsError : Type :=
| Error (message : Message)
| DatabaseError (sqlstate : string) (constraint : string).

(** [error.code] *)
Definition code (e : JsError) : option string :=
  match e with
  | Error _ => None
  | DatabaseError c _ => Some c
  end.

Definition unique_violation : string := "23505".
Definition check_violation : string := "23514".

(** ** Asynchronous computations over the database

    An [async] function is a state transformer on [Db] that either resolves
    with a value or rejects with an error; the database state is kept in both
    cases, since earlier statements of a rejected call stay committed. *)
Inductive Outcome (A : Type) : Type :=
| Resolved (a : A)
| Rejected (e : JsError).
Arguments Resolved {A} a.
Arguments Rejected {A} e.

Definition Async (A : Type) : Type := Db -> Outcome A * Db.

#[global] Instance Async_ret : MRet Async :=
  fun A a db => (Resolved a, db).

#[global] Instance Async_bind : MBind Async :=
  fun A B f m db =>
    match m db with
    | (Resolved a, db') => f a db'
    | (Rejected e, db') => (Rejected e, db')
    end.

Definition throw {A : Type} (e : JsError) : Async A :=
  fun db => (Rejected e, db).

(** [try { body } catch (error) { handler(error) }] *)
Definition try_catch {A : Type} (body : Async A)
    (handler : JsError -> Async A) : Async A :=
  fun db =>
    match body db with
    | (Resolved a, db') => (Resolved a, db')
    | (Rejected e, db') => handler e db'
    end.

(** ** Storage statements

    Each definition below is one SQL statement of the service, with the
    constraints of migration 001 applied by the database:
    - [idx_unique_open_tracking]: unique on
      [(puesto_id, lote, instancia, version) WHERE fecha_final IS NULL];
    - [chk_valid_date_range]:
      [CHECK (fecha_final IS NULL OR fecha_inicio <= fecha_final)]. *)

(** The database once row [k] of [trackings] holds [r]. *)
Definition write (k : Z) (r : Row) (db : Db) : Db :=
  {| trackings := <[k := r]> (trackings db);
     current_timestamp := current_timestamp db |}.

(** [FROM trackings]: the rows of the table, each with its primary key. *)
Definition rows (db : Db) : list TrackingRecord :=
  (fun kr => mkTrackingRecord kr.1 kr.2) <$> map_to_list (trackings db).

(** Position under [ORDER BY fecha_inicio DESC].  PostgreSQL leaves the order
    of rows with equal [fecha_inicio] unspecified; here the row inserted last
    (greatest [id]) comes first among them. *)
Definition sorts_before (a b : TrackingRecord) : bool :=
  (fecha_inicio b <? fecha_inicio a)
  || ((fecha_inicio b =? fecha_inicio a) && (id b <? id a)).

(** [ORDER BY fecha_inicio DESC LIMIT 1] *)
Definition order_by_fecha_inicio_desc_limit_1
    (l : list TrackingRecord) : option TrackingRecord :=
  foldr (fun r acc =>
           match acc with
           | None => Some r
           | Some b => if sorts_before r b then Some r else Some b
           end) None l.

(** [WHERE lote = $1 AND instancia = $2 AND version = $3 AND puesto_id != $4
    AND fecha_final IS NULL] *)
Definition open_in_other_puesto (data : TrackingData.t)
    (r : TrackingRecord) : bool :=
  bool_decide (lote r = TrackingData.lote data)
  && (instancia r =? TrackingData.instancia data)
  && (version r =? TrackingData.version data)
  && negb (puesto_id r =? TrackingData.puesto_id data)
  && is_open r.

(** [WHERE puesto_id = $1 AND fecha_final IS NULL] *)
Definition open_in_puesto (puestoId : Z) (r : TrackingRecord) : bool :=
  (puesto_id r =? puestoId) && is_open r.

(** [SELECT ... FROM trackings WHERE ... ORDER BY fecha_inicio DESC LIMIT 1] *)
Definition select_latest (cond : TrackingRecord -> bool)
  : Async (option TrackingRecord) :=
  fun db =>
    (Resolved (order_by_fecha_inicio_desc_limit_1 (List.filter cond (rows db))),
     db).

(** The row after [SET fecha_final = $1, closure_reason = $2,
    updated_at = CURRENT_TIMESTAMP]. *)
Definition closed_row (fechaFinal : Date) (reason : string) (now : Date)
    (r : Row) : Row :=
  {| puesto_id := puesto_id r;
     lote := lote r;
     instancia := instancia r;
     version := version r;
     fecha_inicio := fecha_inicio r;
     fecha_final := Some fechaFinal;
     user_id := user_id r;
     closure_reason := Some reason;
     created_at := created_at r;
     updated_at := now |}.

(** [UPDATE trackings SET ... WHERE id = $3].  No row matching is not an
    error: the statement then updates nothing.  The updated row must pass
    [chk_valid_date_range]. *)
Definition update_close (fechaFinal : Date) (reason : string)
    (trackingId : Z) : Async unit :=
  fun db =>
    match trackings db !! trackingId with
    | None => (Resolved tt, db)
    | Some r =>
        if fecha_inicio r <=? fechaFinal then
          (Resolved tt,
           write trackingId
             (closed_row fechaFinal reason (current_timestamp db) r) db)
        else
          (Rejected (DatabaseError check_violation "chk_valid_date_range"), db)
    end.

(** The id the table's sequence hands to the next inserted row: one more than
    every id in use. *)
Definition nextval (t : gmap Z Row) : Z :=
  1 + foldr Z.max 0 ((map_to_list t).*1).

(** Does an open row with this key already sit in [idx_unique_open_tracking]? *)
Definition in_unique_open_index (puesto : Z) (w : string * Z * Z)
    (db : Db) : bool :=
  existsb (fun r : TrackingRecord =>
             (puesto_id r =? puesto) && bool_decide (window r = w) && is_open r)
          (rows db).

(** [INSERT INTO trackings (puesto_id, lote, instancia, version, fecha_inicio,
    user_id, created_at, updated_at) VALUES ($1, ..., $6, CURRENT_TIMESTAMP,
    CURRENT_TIMESTAMP) RETURNING *].  [fecha_final] and [closure_reason] take
    their default NULL, so the new row is open and enters the unique index. *)
Definition insert_tracking (puesto : Z) (lote_ : string)
    (instancia_ version_ : Z) (inicio : Date) (user : option Z)
  : Async TrackingRecord :=
  fun db =>
    if in_unique_open_index puesto (lote_, instancia_, version_) db then
      (Rejected (DatabaseError unique_violation "idx_unique_open_tracking"), db)
    else
      let now := current_timestamp db in
      let r := {| puesto_id := puesto;
                  lote := lote_;
                  instancia := instancia_;
                  version := version_;
                  fecha_inicio := inicio;
                  fecha_final := None;
                  user_id := user;
                  closure_reason := None;
                  created_at := now;
                  updated_at := now |} in
      let k := nextval (trackings db) in
      (Resolved (mkTrackingRecord k r), write k r db).

(** [SELECT * FROM trackings WHERE id = $1] *)
Definition select_by_id (trackingId : Z) : Async (option TrackingRecord) :=
  fun db => (Resolved (mkTrackingRecord trackingId <$> trackings db !! trackingId), db).

(** ** The service *)

(** JavaScript [v || null] on an optional number: every falsy value, the
    number 0 included, becomes [null]. *)
Definition or_null (v : option Z) : option Z :=
  match v with
  | Some n => if n =? 0 then None else Some n
  | None => None
  end.

Definition MANUAL_CLOSE : string := "MANUAL_CLOSE".
Definition CHAIN_TRANSITION : string := "CHAIN_TRANSITION".
Definition RESCANNED_SAME_WINDOW : string := "RESCANNED_SAME_WINDOW".

(** [closeTracking(trackingId, fechaFinal, reason = 'MANUAL_CLOSE')];
    [reason = None] is the omitted argument. *)
Definition closeTracking (trackingId : Z) (fechaFinal : Date)
    (reason : option string) : Async unit :=
  update_close fechaFinal (default MANUAL_CLOSE reason) trackingId.

Definition closeTrackingInOtherPuesto (data : TrackingData.t) : Async unit :=
  result ← select_latest (open_in_other_puesto data);
  match result with
  | Some previousTracking =>
      closeTracking (id previousTracking) (TrackingData.fecha_inicio data)
        (Some CHAIN_TRANSITION)
  | None => mret tt
  end.

Definition findOpenTrackingInPuesto (puestoId : Z)
  : Async (option TrackingRecord) :=
  select_latest (open_in_puesto puestoId).

(** [openInSamePuesto.lote === data.lote && ... ] *)
Definition same_window (r : TrackingRecord) (data : TrackingData.t) : bool :=
  bool_decide (lote r = TrackingData.lote data)
  && (instancia r =? TrackingData.instancia data)
  && (version r =? TrackingData.version data).

(** The [catch (error: any)] block of [createTracking]. *)
Definition on_error {A : Type} (error : JsError) : Async A :=
  if bool_decide (code error = Some unique_violation) then
    throw (Error DatabaseConstraintViolation)
  else
    throw error.

Definition createTracking (data : TrackingData.t) : Async TrackingRecord :=
  try_catch
    (closeTrackingInOtherPuesto data;;
     openInSamePuesto ← findOpenTrackingInPuesto (TrackingData.puesto_id data);
     match openInSamePuesto with
     | Some o =>
         if same_window o data then
           closeTracking (id o) (TrackingData.fecha_inicio data)
             (Some RESCANNED_SAME_WINDOW)
         else
           throw (Error (CannotCreateTracking (TrackingData.puesto_id data)
                           (lote o) (instancia o) (version o)
                           (fecha_inicio o)))
     | None => mret tt
     end;;
     insert_tracking (TrackingData.puesto_id data) (TrackingData.lote data)
       (TrackingData.instancia data) (TrackingData.version data)
       (TrackingData.fecha_inicio data) (or_null (TrackingData.user_id data)))
    on_error.

Definition getTracking (trackingId : Z) : Async (option TrackingRecord) :=
  select_by_id trackingId.

(** *** Overlap monitoring *)

(** A row of the CTE [tracking_periods]: [fecha_final] is
    [COALESCE(fecha_final, CURRENT_TIMESTAMP)], hence never NULL. *)
Module TrackingPeriod.
Record t : Type := mk {
  id : Z;
  puesto_id : Z;
  lote : string;
  instancia : Z;
  version : Z;
  fecha_inicio : Date;
  fecha_final : Date
}.
End TrackingPeriod.

(** A row returned by [findOverlaps]. *)
Module Overlap.
Record t : Type := mk {
  tracking1_id : Z;
  puesto_id : Z;
  lote1 : string;
  instancia1 : Z;
  version1 : Z;
  inicio1 : Date;
  final1 : Date;
  tracking2_id : Z;
  lote2 : string;
  instancia2 : Z;
  version2 : Z;
  inicio2 : Date;
  final2 : Date;
  overlap_seconds : Z
}.
End Overlap.

Definition tracking_period (now : Date) (r : TrackingRecord) : TrackingPeriod.t :=
  {| TrackingPeriod.id := id r;
     TrackingPeriod.puesto_id := puesto_id r;
     TrackingPeriod.lote := lote r;
     TrackingPeriod.instancia := instancia r;
     TrackingPeriod.version := version r;
     TrackingPeriod.fecha_inicio := fecha_inicio r;
     TrackingPeriod.fecha_final := default now (fecha_final r) |}.

Definition tracking_periods (db : Db) : list TrackingPeriod.t :=
  tracking_period (current_timestamp db) <$> rows db.

(** [ON t1.puesto_id = t2.puesto_id AND t1.id < t2.id] *)
Definition join_on (t1 t2 : TrackingPeriod.t) : bool :=
  (TrackingPeriod.puesto_id t1 =? TrackingPeriod.puesto_id t2)
  && (TrackingPeriod.id t1 <? TrackingPeriod.id t2).

(** [WHERE t1.fecha_inicio < t2.fecha_final AND t1.fecha_final > t2.fecha_inicio] *)
Definition overlap_where (t1 t2 : TrackingPeriod.t) : bool :=
  (TrackingPeriod.fecha_inicio t1 <? TrackingPeriod.fecha_final t2)
  && (TrackingPeriod.fecha_final t1 >? TrackingPeriod.fecha_inicio t2).

(** The select list.  [Date] counts seconds, so
    [EXTRACT(EPOCH FROM (LEAST(..) - GREATEST(..)))] is the plain difference. *)
Definition overlap_row (t1 t2 : TrackingPeriod.t) : Overlap.t :=
  {| Overlap.tracking1_id := TrackingPeriod.id t1;
     Overlap.puesto_id := TrackingPeriod.puesto_id t1;
     Overlap.lote1 := TrackingPeriod.lote t1;
     Overlap.instancia1 := TrackingPeriod.instancia t1;
     Overlap.version1 := TrackingPeriod.version t1;
     Overlap.inicio1 := TrackingPeriod.fecha_inicio t1;
     Overlap.final1 := TrackingPeriod.fecha_final t1;
     Overlap.tracking2_id := TrackingPeriod.id t2;
     Overlap.lote2 := TrackingPeriod.lote t2;
     Overlap.instancia2 := TrackingPeriod.instancia t2;
     Overlap.version2 := TrackingPeriod.version t2;
     Overlap.inicio2 := TrackingPeriod.fecha_inicio t2;
     Overlap.final2 := TrackingPeriod.fecha_final t2;
     Overlap.overlap_seconds :=
       Z.min (TrackingPeriod.fecha_final t1) (TrackingPeriod.fecha_final t2)
       - Z.max (TrackingPeriod.fecha_inicio t1) (TrackingPeriod.fecha_inicio t2)
  |}.

(** [ORDER BY overlap_seconds DESC] *)
Definition by_overlap_desc (a b : Overlap.t) : Prop :=
  Overlap.overlap_seconds b <= Overlap.overlap_seconds a.

#[global] Instance by_overlap_desc_dec a b : Decision (by_overlap_desc a b).
Proof. unfold by_overlap_desc. apply _. Defined.

(** [WITH tracking_periods AS (...) SELECT ... FROM tracking_periods t1
    INNER JOIN tracking_periods t2 ON ... WHERE ... ORDER BY overlap_seconds
    DESC] *)
Definition overlaps_query (db : Db) : list Overlap.t :=
  let periods := tracking_periods db in
  merge_sort by_overlap_desc
    (t1 ← periods;
     t2 ← periods;
     if join_on t1 t2 && overlap_where t1 t2
     then [overlap_row t1 t2] else []).

Definition findOverlaps : Async (list Overlap.t) :=
  fun db => (Resolved (overlaps_query db), db).

(** *** A scan racing with another writer

    [createTracking] awaits every statement, so statements of other requests
    can commit in between.  [scan_checks] is the part of the [try] block before
    the insert (steps 1 and 2); [createTracking_raced other] is the same call
    with the committed effect [other] of a concurrent writer landing between
    the check of step 2 and the insert of step 3. *)
Definition scan_checks (data : TrackingData.t) : Async unit :=
  closeTrackingInOtherPuesto data;;
  openInSamePuesto ← findOpenTrackingInPuesto (TrackingData.puesto_id data);
  match openInSamePuesto with
  | Some o =>
      if same_window o data then
        closeTracking (id o) (TrackingData.fecha_inicio data)
          (Some RESCANNED_SAME_WINDOW)
      else
        throw (Error (CannotCreateTracking (TrackingData.puesto_id data)
                        (lote o) (instancia o) (version o)
                        (fecha_inicio o)))
  | None => mret tt
  end.

Definition scan_insert (data : TrackingData.t) : Async TrackingRecord :=
  insert_tracking (TrackingData.puesto_id data) (TrackingData.lote data)
    (TrackingData.instancia data) (TrackingData.version data)
    (TrackingData.fecha_inicio data) (or_null (TrackingData.user_id data)).

Definition createTracking_raced (other : Db -> Db) (data : TrackingData.t)
  : Async TrackingRecord :=
  try_catch
    (scan_checks data;;
     (fun db => (Resolved tt, other db));;
     scan_insert data)
    on_error.

(** ** Invariants of the data model *)

(** I2 (single location): a window identity has at most one open interval. *)
Definition single_location (t : gmap Z Row) : Prop :=
  forall k1 k2 r1 r2,
    t !! k1 = Some r1 -> t !! k2 = Some r2 ->
    is_open r1 = true -> is_open r2 = true ->
    window r1 = window r2 -> k1 = k2.

(** The half-open range [[start, end_or_now)] of an interval, as a set of
    instants. *)
Definition in_range (now : Date) (r : Row) (x : Date) : Prop :=
  fecha_inicio r <= x < default now (fecha_final r).

Definition ranges_intersect (now : Date) (r1 r2 : Row) : Prop :=
  exists x, in_range now r1 x /\ in_range now r2 x.

(** ** Answers of the [LIMIT 1] queries *)

(** [b] is the row a [... ORDER BY fecha_inicio DESC LIMIT 1] returns from
    table [t] under condition [cond]. *)
Definition is_latest (cond : TrackingRecord -> bool) (t : gmap Z Row)
    (b : TrackingRecord) : Prop :=
  t !! id b = Some (row b) /\ cond b = true /\
  forall k r, t !! k = Some r -> cond (mkTrackingRecord k r) = true ->
              sorts_before (mkTrackingRecord k r) b = false.

(** What a [select_latest] answers: nothing when no row matches, the first
    row in the order otherwise. *)
Definition latest_answer (cond : TrackingRecord -> bool) (t : gmap Z Row)
    (o : option TrackingRecord) : Prop :=
  match o with
  | Some b => is_latest cond t b
  | None => forall k r, t !! k = Some r -> cond (mkTrackingRecord k r) = false
  end.

(** ** Paths of the service

    The relations below list, path by path, what a statement, a step and a
    whole call can do to the database; the lemmas of the next part show that
    the functions above follow them. *)

Definition check_error : JsError :=
  DatabaseError check_violation "chk_valid_date_range".

Definition occupied_error (data : TrackingData.t) (o : TrackingRecord) : JsError :=
  Error (CannotCreateTracking (TrackingData.puesto_id data)
           (lote o) (instancia o) (version o) (fecha_inicio o)).

(** The row step 3 inserts for a scan at server time [now]. *)
Definition opened_row (data : TrackingData.t) (now : Date) : Row :=
  {| puesto_id := TrackingData.puesto_id data;
     lote := TrackingData.lote data;
     instancia := TrackingData.instancia data;
     version := TrackingData.version data;
     fecha_inicio := TrackingData.fecha_inicio data;
     fecha_final := None;
     user_id := or_null (TrackingData.user_id data);
     closure_reason := None;
     created_at := now;
     updated_at := now |}.

(** The three ways an [UPDATE ... WHERE id = k] that closes a row can go. *)
Inductive closes (fechaFinal : Date) (reason : string) (k : Z) (db : Db)
  : Outcome unit -> Db -> Prop :=
| closes_no_row :
    trackings db !! k = None ->
    closes fechaFinal reason k db (Resolved tt) db
| closes_row r :
    trackings db !! k = Some r ->
    fecha_inicio r <= fechaFinal ->
    closes fechaFinal reason k db (Resolved tt)
      (write k (closed_row fechaFinal reason (current_timestamp db) r) db)
| closes_rejected r :
    trackings db !! k = Some r ->
    fechaFinal < fecha_inicio r ->
    closes fechaFinal reason k db (Rejected check_error) db.

(** Step 1 went through: either the window was open nowhere else, or its
    latest open interval elsewhere is now closed as a chain transition. *)
Inductive chain_closed (data : TrackingData.t) (db : Db) : Db -> Prop :=
| chain_nothing :
    latest_answer (open_in_other_puesto data) (trackings db) None ->
    chain_closed data db db
| chain_transition p :
    is_latest (open_in_other_puesto data) (trackings db) p ->
    fecha_inicio p <= TrackingData.fecha_inicio data ->
    chain_closed data db
      (write (id p)
         (closed_row (TrackingData.fecha_inicio data) CHAIN_TRANSITION
            (current_timestamp db) p) db).

(** Step 2 went through: either the workstation had no open interval, or its
    latest open interval was of the scanned window and is now closed as a
    rescan. *)
Inductive station_cleared (data : TrackingData.t) (db : Db) : Db -> Prop :=
| station_free :
    latest_answer (open_in_puesto (TrackingData.puesto_id data))
      (trackings db) None ->
    station_cleared data db db
| station_rescanned o :
    is_latest (open_in_puesto (TrackingData.puesto_id data)) (trackings db) o ->
    same_window o data = true ->
    fecha_inicio o <= TrackingData.fecha_inicio data ->
    station_cleared data db
      (write (id o)
         (closed_row (TrackingData.fecha_inicio data) RESCANNED_SAME_WINDOW
            (current_timestamp db) o) db).

(** The paths through steps 1 and 2. *)
Inductive checks (data : TrackingData.t) (db : Db) : Outcome unit -> Db -> Prop :=
| checks_chain_rejected p :
    is_latest (open_in_other_puesto data) (trackings db) p ->
    TrackingData.fecha_inicio data < fecha_inicio p ->
    checks data db (Rejected check_error) db
| checks_occupied db1 o :
    chain_closed data db db1 ->
    is_latest (open_in_puesto (TrackingData.puesto_id data)) (trackings db1) o ->
    same_window o data = false ->
    checks data db (Rejected (occupied_error data o)) db1
| checks_rescan_rejected db1 o :
    chain_closed data db db1 ->
    is_latest (open_in_puesto (TrackingData.puesto_id data)) (trackings db1) o ->
    same_window o data = true ->
    TrackingData.fecha_inicio data < fecha_inicio o ->
    checks data db (Rejected check_error) db1
| checks_passed db1 db2 :
    chain_closed data db db1 ->
    station_cleared data db1 db2 ->
    checks data db (Resolved tt) db2.

(** The paths through a whole scan. *)
Inductive scan (data : TrackingData.t) (db : Db)
  : Outcome TrackingRecord -> Db -> Prop :=
| scan_rejected e db1 :
    checks data db (Rejected e) db1 ->
    scan data db (Rejected e) db1
| scan_constraint_violation db2 :
    checks data db (Resolved tt) db2 ->
    in_unique_open_index (TrackingData.puesto_id data) (scanned_window data)
      db2 = true ->
    scan data db (Rejected (Error DatabaseConstraintViolation)) db2
| scan_created db2 :
    checks data db (Resolved tt) db2 ->
    in_unique_open_index (TrackingData.puesto_id data) (scanned_window data)
      db2 = false ->
    scan data db
      (scan_insert data db2).1
      (scan_insert data db2).2.

(** [db1] is [db], or [db] with one open row meeting [cond] closed at
    [fechaFinal] for [reason]. *)
Inductive closed_in (cond : TrackingRecord -> bool) (fechaFinal : Date)
    (reason : string) (db : Db) : Db -> Prop :=
| closed_in_none : closed_in cond fechaFinal reason db db
| closed_in_one p :
    trackings db !! id p = Some (row p) ->
    cond p = true ->
    is_open p = true ->
    closed_in cond fechaFinal reason db
      (write (id p)
         (closed_row fechaFinal reason (current_timestamp db) p) db).

(** The row step 2 closes sits at the scanned workstation and belongs to the
    scanned window. *)
Definition rescanned (data : TrackingData.t) (r : TrackingRecord) : bool :=
  open_in_puesto (TrackingData.puesto_id data) r && same_window r data.

(** ** Vocabulary of the claims *)


(** The inputs the specification calls malformed: an empty [lote], a negative
    [instancia] or [version], a non-positive workstation id. *)
Definition malformed (data : TrackingData.t) : Prop :=
  TrackingData.lote data = ""
  \/ TrackingData.instancia data < 0
  \/ TrackingData.version data < 0
  \/ TrackingData.puesto_id data <= 0.

#[global] Instance malformed_dec data : Decision (malformed data).
Proof. unfold malformed. apply _. Defined.


(** Interval [k] was open in [db] and is closed in [db']; nothing else about
    it changed but the bookkeeping of the update. *)
Definition closed_between (db db' : Db) (k : Z) : Prop :=
  exists r fechaFinal reason,
    trackings db !! k = Some r /\ is_open r = true
    /\ trackings db' !! k =
       Some (closed_row fechaFinal reason (current_timestamp db) r).

(** The claim of C4 for one call: there is at most one prior interval the
    call closes, every other prior interval is exactly as before, and the
    only new interval is the one the call returns. *)
Definition closes_at_most_one (data : TrackingData.t) (db : Db) : Prop :=
  let out := (createTracking data db).1 in
  let db' := (createTracking data db).2 in
  exists closed : option Z,
    (forall k, closed = Some k -> closed_between db db' k)
    /\ (forall k r, trackings db !! k = Some r -> closed <> Some k ->
                    trackings db' !! k = Some r)
    /\ (forall k, trackings db !! k = None ->
                  trackings db' !! k = None
                  \/ exists r, out = Resolved r /\ id r = k
                               /\ trackings db' !! k = Some (row r)).

(** An error object that is a bare [Error]: a message and nothing else, no
    [code], no class of its own. *)
Definition plain_Error (e : JsError) : Prop :=
  match e with
  | Error _ => True
  | DatabaseError _ _ => False
  end.

(** The end of an interval as the query sees it:
    [COALESCE(fecha_final, CURRENT_TIMESTAMP)]. *)
Definition end_or_now (now : Date) (r : Row) : Date :=
  default now (fecha_final r).

(** The pair of stored intervals [(k1, r1)], [(k2, r2)] meets the query's
    [ON] and [WHERE] conditions, in this order. *)
Definition reported_pair (now : Date) (k1 : Z) (r1 : Row) (k2 : Z) (r2 : Row)
  : Prop :=
  puesto_id r1 = puesto_id r2 /\ k1 < k2
  /\ fecha_inicio r1 < end_or_now now r2
  /\ fecha_inicio r2 < end_or_now now r1.

(** The row the query returns for such a pair. *)
Definition reported_row (now : Date) (k1 : Z) (r1 : Row) (k2 : Z) (r2 : Row)
  : Overlap.t :=
  overlap_row (tracking_period now (mkTrackingRecord k1 r1))
              (tracking_period now (mkTrackingRecord k2 r2)).

(** ** Example scans and stores

    Times are seconds since midnight: 36000 is 10:00, 37800 is 10:30, 39600
    is 11:00; the server clock stands at 40000. *)

Definition empty_db (now : Date) : Db :=
  {| trackings := ∅; current_timestamp := now |}.

(** Scans of window (TEST001, 1, 1), the window of the integration tests. *)
Definition scan_P1_at_10_00 : TrackingData.t :=
  TrackingData.mk 1 "TEST001" 1 1 36000 None.
Definition scan_P2_at_10_30 : TrackingData.t :=
  TrackingData.mk 2 "TEST001" 1 1 37800 None.
Definition scan_P3_at_11_00 : TrackingData.t :=
  TrackingData.mk 3 "TEST001" 1 1 39600 None.
Definition rescan_P1_at_10_30 : TrackingData.t :=
  TrackingData.mk 1 "TEST001" 1 1 37800 None.
Definition rescan_P1 : TrackingData.t :=
  TrackingData.mk 1 "TEST001" 1 1 39600 None.

(** A scan of another window and a scan malformed in every respect. *)
Definition scan_A_at_10_00 : TrackingData.t :=
  TrackingData.mk 1 "TEST_A" 1 1 36000 None.

(** The intervals and stores of the chain P1(10:00), P2(10:30), P3(11:00),
    written out. *)
Definition created_P1 : TrackingRecord :=
  mkTrackingRecord 1 (opened_row scan_P1_at_10_00 40000).
Definition created_P2 : TrackingRecord :=
  mkTrackingRecord 2 (opened_row scan_P2_at_10_30 40000).
Definition created_P3 : TrackingRecord :=
  mkTrackingRecord 3 (opened_row scan_P3_at_11_00 40000).

Definition after_P1 : Db := write 1 created_P1 (empty_db 40000).
Definition after_P2 : Db :=
  write 2 created_P2
    (write 1 (closed_row 37800 CHAIN_TRANSITION 40000 created_P1) after_P1).
Definition after_P3 : Db :=
  write 3 created_P3
    (write 2 (closed_row 39600 CHAIN_TRANSITION 40000 created_P2) after_P2).

(** The concrete scenario of the specification: window (TEST001, 1, 1) is
    scanned at workstation 1 at 10:00, at workstation 2 at 10:30 and at
    workstation 3 at 11:00, starting from an empty table at server time
    [now]. *)
Definition chain_scenario (now : Date) : Db :=
  (createTracking scan_P3_at_11_00
     (createTracking scan_P2_at_10_30
        (createTracking scan_P1_at_10_00 (empty_db now)).2).2).2.



(** A store holding one open interval of TEST001 at workstation 1. *)
Definition open_interval_P1 : Row :=
  {| puesto_id := 1; lote := "TEST001"; instancia := 1; version := 1;
     fecha_inicio := 36000; fecha_final := None; user_id := None;
     closure_reason := None; created_at := 36001; updated_at := 36001 |}.

Definition open_at_P1 : Db := write 1 open_interval_P1 (empty_db 40000).

(** TEST001 is open at workstation 2 while workstation 1 is held by the
    other window TEST_A. *)
Definition open_interval_P2 : Row :=
  {| puesto_id := 2; lote := "TEST001"; instancia := 1; version := 1;
     fecha_inicio := 37800; fecha_final := None; user_id := None;
     closure_reason := None; created_at := 37801; updated_at := 37801 |}.

Definition other_window_P1 : Row :=
  {| puesto_id := 1; lote := "TEST_A"; instancia := 1; version := 1;
     fecha_inicio := 36000; fecha_final := None; user_id := None;
     closure_reason := None; created_at := 36001; updated_at := 36001 |}.

Definition occupied_P1 : Db :=
  write 2 open_interval_P2 (write 1 other_window_P1 (empty_db 40000)).

(** Two scans of TEST001, at workstation 1 and at workstation 2, race: the
    scan at workstation 2 commits between the checks and the insert of the
    scan at workstation 1, and the window ends up open at both (I2 broken). *)
Definition open_twice : Db :=
  (createTracking_raced (fun db => (createTracking scan_P2_at_10_30 db).2)
     scan_P1_at_10_00 (empty_db 40000)).2.

(** Another request scanning TEST001 at workstation 1: its whole call. *)
Definition concurrent_scan (db : Db) : Db :=
  (createTracking scan_P1_at_10_00 db).2.

(** Window TEST_A spends 10:00 to 11:00 at workstation 1 and is closed by
    hand; afterwards window TEST001 is recorded at workstation 1 with the
    backdated time 10:30, twice.  The rescan closes the first of these two
    intervals at the instant it started. *)
Definition backdated_rescan : Db :=
  (createTracking rescan_P1_at_10_30
     (createTracking rescan_P1_at_10_30
        (closeTracking 1 39600 None
           (createTracking scan_A_at_10_00 (empty_db 40000)).2).2).2).2.

Definition long_interval : Row :=
  closed_row 39600 MANUAL_CLOSE 40000 (opened_row scan_A_at_10_00 40000).

Definition instant_interval : Row :=
  closed_row 37800 RESCANNED_SAME_WINDOW 40000
    (opened_row rescan_P1_at_10_30 40000).

Definition reopened_interval : Row := opened_row rescan_P1_at_10_30 40000.

(** ** More invariants of the data model *)

(** No two distinct open intervals are related by [same]. *)
Definition pairwise_open (same : Row -> Row -> Prop) (t : gmap Z Row) : Prop :=
  forall k1 k2 r1 r2,
    t !! k1 = Some r1 -> t !! k2 = Some r2 ->
    is_open r1 = true -> is_open r2 = true ->
    same r1 r2 -> k1 = k2.

(** I1 (exclusivity): a workstation has at most one open interval. *)
Definition exclusive_stations (t : gmap Z Row) : Prop :=
  pairwise_open (fun r1 r2 => puesto_id r1 = puesto_id r2) t.

(** [idx_unique_open_tracking] holds: at most one open interval per
    workstation and window. *)
Definition unique_open_index (t : gmap Z Row) : Prop :=
  pairwise_open (fun r1 r2 => puesto_id r1 = puesto_id r2
                              /\ window r1 = window r2) t.

(** [chk_valid_date_range] holds for a row (I3). *)
Definition valid_date_range (r : Row) : Prop :=
  forall e, fecha_final r = Some e -> fecha_inicio r <= e.

(** I4: the closure reason is set exactly when the end time is. *)
Definition closure_has_reason (r : Row) : Prop :=
  fecha_final r = None <-> closure_reason r = None.

(** Two intervals do not overlap whatever the clock says: one of them is
    closed and ended no later than the other started. *)
Definition disjoint_rows (r1 r2 : Row) : Prop :=
  (exists e, fecha_final r1 = Some e /\ e <= fecha_inicio r2)
  \/ (exists e, fecha_final r2 = Some e /\ e <= fecha_inicio r1).

(** I5 (no stored overlap): distinct intervals at one workstation are
    disjoint. *)
Definition no_stored_overlap (t : gmap Z Row) : Prop :=
  forall k1 k2 r1 r2,
    t !! k1 = Some r1 -> t !! k2 = Some r2 -> k1 <> k2 ->
    puesto_id r1 = puesto_id r2 -> disjoint_rows r1 r2.

(** Nothing in the table happened after [T]: every start and every end is at
    or before [T]. *)
Definition not_after (T : Date) (t : gmap Z Row) : Prop :=
  forall k r, t !! k = Some r ->
    fecha_inicio r <= T /\ forall e, fecha_final r = Some e -> e <= T.

(** Row [r'] is what a scan [data], run at server time [now], makes of the
    open row [r] when it closes it: closed at the scan's time, in step 1 or in
    step 2. *)
Definition closed_by_scan (data : TrackingData.t) (now : Date) (r r' : Row)
  : Prop :=
  is_open r = true
  /\ fecha_inicio r <= TrackingData.fecha_inicio data
  /\ exists reason,
       (reason = CHAIN_TRANSITION \/ reason = RESCANNED_SAME_WINDOW)
       /\ r' = closed_row (TrackingData.fecha_inicio data) reason now r.

(** Every open interval of window (TEST001, 1, 1) in [db] is the one stored
    under [k]. *)
Definition forall_open_is (db : Db) (k : Z) : Prop :=
  forall k' r, trackings db !! k' = Some r -> is_open r = true ->
               window r = ("TEST001", 1, 1) -> k' = k.

(** ** Scans handled one after another

    The documented caller ([app.post('/api/trackings', ...)]) awaits
    [createTracking] inside [try]/[catch] and answers a rejected call with
    status 400; the next request then runs on whatever the rejected call left
    in the table. *)
Definition record_scans (scans : list TrackingData.t) (db : Db) : Db :=
  foldl (fun db' data => (createTracking data db').2) db scans.

(** The scan times never go back, starting from [T]. *)
Fixpoint nondecreasing_from (T : Date) (scans : list TrackingData.t) : Prop :=
  match scans with
  | [] => True
  | data :: rest =>
      T <= TrackingData.fecha_inicio data
      /\ nondecreasing_from (TrackingData.fecha_inicio data) rest
  end.

(** ** Migration 002: closing orphaned trackings *)

Definition AUTO_CLOSED_ORPHANED : string := "AUTO_CLOSED_ORPHANED".

(** [INTERVAL 'n hours'], in the seconds [Date] counts. *)
Definition hours (n : Z) : Z := n * 3600.

(** [EXISTS (SELECT 1 FROM trackings t2 WHERE t2.lote = trackings.lote AND
    t2.instancia = trackings.instancia AND t2.version = trackings.version AND
    t2.fecha_inicio > trackings.fecha_inicio)] *)
Definition has_newer_tracking (db : Db) (r : Row) : bool :=
  existsb (fun t2 : TrackingRecord =>
             bool_decide (lote t2 = lote r)
             && (instancia t2 =? instancia r)
             && (version t2 =? version r)
             && (fecha_inicio t2 >? fecha_inicio r))
          (rows db).

(** The [WHERE] clause of step 2 (and of the preview of step 1):
    [fecha_final IS NULL AND fecha_inicio < CURRENT_TIMESTAMP - INTERVAL
    '24 hours' AND NOT EXISTS (...)]. *)
Definition orphaned (db : Db) (r : Row) : bool :=
  is_open r
  && (fecha_inicio r <? current_timestamp db - hours 24)
  && negb (has_newer_tracking db r).

(** The row after [SET fecha_final = GREATEST(fecha_inicio + INTERVAL
    '24 hours', CURRENT_TIMESTAMP - INTERVAL '1 hour'), updated_at =
    CURRENT_TIMESTAMP, closure_reason = 'AUTO_CLOSED_ORPHANED']. *)
Definition orphan_closed (now : Date) (r : Row) : Row :=
  {| puesto_id := puesto_id r;
     lote := lote r;
     instancia := instancia r;
     version := version r;
     fecha_inicio := fecha_inicio r;
     fecha_final := Some (Z.max (fecha_inicio r + hours 24) (now - hours 1));
     user_id := user_id r;
     closure_reason := Some AUTO_CLOSED_ORPHANED;
     created_at := created_at r;
     updated_at := now |}.

(** Does a row break [chk_valid_date_range]? *)
Definition breaks_date_range (r : Row) : bool :=
  match fecha_final r with
  | None => false
  | Some e => e <? fecha_inicio r
  end.

(** Would row [r], stored under key [k], duplicate the key of an open row of
    [t] in [idx_unique_open_tracking]? *)
Definition duplicates_open_key (t : gmap Z Row) (k : Z) (r : Row) : bool :=
  is_open r
  && existsb (fun b : Z * Row =>
                negb (b.1 =? k) && is_open b.2
                && (puesto_id b.2 =? puesto_id r)
                && bool_decide (window b.2 = window r))
             (map_to_list t).

(** A multi-row [UPDATE trackings SET ... WHERE ...]: the [WHERE] clause and
    the [SET] expressions read the table as it was before the statement; the
    statement is rejected as a whole, changing nothing, when an updated row
    breaks [chk_valid_date_range] or duplicates a key of
    [idx_unique_open_tracking].  It is used for the two statements below: in
    the first every updated row leaves the index, in the second every updated
    row enters it and passes the date check, so the order in which the rows
    are visited is of no account. *)
Definition update_where (cond : Db -> Row -> bool) (set : Db -> Row -> Row)
  : Async unit :=
  fun db =>
    let updated := (fun r => if cond db r then set db r else r)
                     <$> trackings db in
    if existsb (fun kr : Z * Row =>
                  cond db kr.2 && breaks_date_range (set db kr.2))
         (map_to_list (trackings db))
    then (Rejected check_error, db)
    else if existsb (fun kr : Z * Row =>
                       cond db kr.2
                       && duplicates_open_key updated kr.1 (set db kr.2))
              (map_to_list (trackings db))
    then (Rejected (DatabaseError unique_violation "idx_unique_open_tracking"),
          db)
    else (Resolved tt,
          {| trackings := updated;
             current_timestamp := current_timestamp db |}).

(** Step 2 of migration 002. *)
Definition close_orphaned_trackings : Async unit :=
  update_where orphaned (fun db r => orphan_closed (current_timestamp db) r).

(** The documented rollback of migration 002: [UPDATE trackings SET
    fecha_final = NULL, closure_reason = NULL WHERE closure_reason =
    'AUTO_CLOSED_ORPHANED']; the trigger of migration 001 stamps
    [updated_at]. *)
Definition reopened_row (now : Date) (r : Row) : Row :=
  {| puesto_id := puesto_id r;
     lote := lote r;
     instancia := instancia r;
     version := version r;
     fecha_inicio := fecha_inicio r;
     fecha_final := None;
     user_id := user_id r;
     closure_reason := None;
     created_at := created_at r;
     updated_at := now |}.

Definition rollback_orphaned_trackings : Async unit :=
  update_where
    (fun _ r => bool_decide (closure_reason r = Some AUTO_CLOSED_ORPHANED))
    (fun db r => reopened_row (current_timestamp db) r).

(** An orphaned tracking, as migration 002 understands it: open, started
    more than 24 hours before the server time, and no tracking of the same
    window started later. *)
Definition stale (db : Db) (r : Row) : Prop :=
  is_open r = true
  /\ fecha_inicio r < current_timestamp db - hours 24
  /\ forall k' r', trackings db !! k' = Some r' -> window r' = window r ->
                   fecha_inicio r' <= fecha_inicio r.

(** The same table when the server clock reads [now]. *)
Definition at_time (now : Date) (db : Db) : Db :=
  {| trackings := trackings db; current_timestamp := now |}.

(** Row [r] after an update that left its columns alone: only the trigger
    of migration 001 stamped [updated_at]. *)
Definition touched (now : Date) (r : Row) : Row :=
  {| puesto_id := puesto_id r;
     lote := lote r;
     instancia := instancia r;
     version := version r;
     fecha_inicio := fecha_inicio r;
     fecha_final := fecha_final r;
     user_id := user_id r;
     closure_reason := closure_reason r;
     created_at := created_at r;
     updated_at := now |}.

(** TEST_A has been open at workstation 1 since 10:00; TEST001 was opened at
    workstation 2 a little before the server time 200000, more than two days
    later. *)
Definition forgotten_interval : Row := opened_row scan_A_at_10_00 36001.

Definition recent_interval : Row :=
  opened_row (TrackingData.mk 2 "TEST001" 1 1 190000 None) 190001.

Definition forgotten_db : Db :=
  write 2 recent_interval (write 1 forgotten_interval (empty_db 200000)).

(** * Properties *)

(** ** The table and its statements *)

Lemma elem_of_rows (db : Db) (r : TrackingRecord) :
  r ∈ rows db <-> trackings db !! id r = Some (row r).
Proof.
  unfold rows. rewrite list_elem_of_fmap. split.
  - intros [[k x] [-> Hin]]. simpl. by apply elem_of_map_to_list in Hin.
  - intros H. exists (id r, row r). split; [by destruct r |].
    by apply elem_of_map_to_list.
Qed.

Lemma sorts_before_irrefl (a : TrackingRecord) : sorts_before a a = false.
Proof. unfold sorts_before. lia. Qed.


Lemma sorts_before_chain (a b c : TrackingRecord) :
  sorts_before a b = false -> sorts_before c b = true ->
  sorts_before a c = false.
Proof. unfold sorts_before. lia. Qed.

Lemma limit_1_nil (l : list TrackingRecord) :
  order_by_fecha_inicio_desc_limit_1 l = None <-> l = [].
Proof.
  destruct l as [|r l]; simpl; [done |].
  split; [| done].
  destruct (order_by_fecha_inicio_desc_limit_1 l); [| done].
  by destruct (sorts_before r t).
Qed.

Lemma limit_1_first (l : list TrackingRecord) (b : TrackingRecord) :
  order_by_fecha_inicio_desc_limit_1 l = Some b ->
  b ∈ l /\ forall r, r ∈ l -> sorts_before r b = false.
Proof.
  revert b. induction l as [|x l IH]; intros b; simpl; [done |].
  destruct (order_by_fecha_inicio_desc_limit_1 l) as [c|] eqn:E.
  - destruct (IH c eq_refl) as [Hc Hmax].
    destruct (sorts_before x c) eqn:Hx; intros [= <-].
    + split; [left |]. intros r [-> | Hr]%elem_of_cons.
      * apply sorts_before_irrefl.
      * eapply sorts_before_chain; [by apply Hmax | done].
    + split; [by right |]. intros r [-> | Hr]%elem_of_cons; [done | by apply Hmax].
  - apply limit_1_nil in E as ->. intros [= <-].
    split; [left |]. intros r [-> | Hr]%elem_of_cons.
    + apply sorts_before_irrefl.
    + by apply elem_of_nil in Hr.
Qed.

Lemma select_latest_answer (cond : TrackingRecord -> bool) (db : Db) :
  exists o, select_latest cond db = (Resolved o, db)
            /\ latest_answer cond (trackings db) o.
Proof.
  unfold select_latest.
  destruct (order_by_fecha_inicio_desc_limit_1 (List.filter cond (rows db)))
    as [b|] eqn:E; eexists; (split; [reflexivity |]); simpl.
  - apply limit_1_first in E as [Hin Hmax].
    apply list_elem_of_In, filter_In in Hin as [Hin Hc].
    apply list_elem_of_In, elem_of_rows in Hin.
    repeat split; [done | done |].
    intros k r Hk Hcond. apply Hmax.
    apply list_elem_of_In, filter_In. split; [| done].
    apply list_elem_of_In, elem_of_rows. done.
  - apply limit_1_nil in E. intros k r Hk.
    destruct (cond (mkTrackingRecord k r)) eqn:Hc; [| done].
    assert (In (mkTrackingRecord k r) (List.filter cond (rows db))) as Hin.
    { apply filter_In. split; [| done].
      apply list_elem_of_In, elem_of_rows. done. }
    rewrite E in Hin. destruct Hin.
Qed.



Lemma nextval_above (t : gmap Z Row) (k : Z) (r : Row) :
  t !! k = Some r -> k < nextval t.
Proof.
  intros H. apply elem_of_map_to_list in H. unfold nextval.
  assert (k ∈ (map_to_list t).*1) as Hk.
  { apply list_elem_of_fmap. by exists (k, r). }
  revert Hk. generalize ((map_to_list t).*1). intros l.
  induction l as [|x l IH]; intros Hk; simpl.
  - by apply elem_of_nil in Hk.
  - apply elem_of_cons in Hk as [-> | Hk]; [lia |]. specialize (IH Hk). lia.
Qed.

Lemma nextval_fresh (t : gmap Z Row) : t !! nextval t = None.
Proof.
  destruct (t !! nextval t) as [r|] eqn:E; [| done].
  apply nextval_above in E. lia.
Qed.

Lemma in_unique_open_index_true (puesto : Z) (w : string * Z * Z) (db : Db) :
  in_unique_open_index puesto w db = true <->
  exists k r, trackings db !! k = Some r /\ puesto_id r = puesto
              /\ window r = w /\ is_open r = true.
Proof.
  unfold in_unique_open_index. rewrite existsb_exists. split.
  - intros [[k r] [Hin Hc]]. apply list_elem_of_In, elem_of_rows in Hin.
    simpl in *. exists k, r.
    apply andb_true_iff in Hc as [Hc Ho].
    apply andb_true_iff in Hc as [Hp Hw].
    apply bool_decide_eq_true in Hw. repeat split; [done | lia | done | done].
  - intros (k & r & Hk & Hp & Hw & Ho). exists (mkTrackingRecord k r).
    split; [by apply list_elem_of_In, elem_of_rows |]. simpl.
    rewrite Ho, andb_true_r. apply andb_true_iff. split; [lia |].
    by apply bool_decide_eq_true.
Qed.

(** ** Runs of the service, path by path *)

Lemma Async_bind_run {A B : Type} (m : Async A) (f : A -> Async B) (db : Db) :
  (m ≫= f) db =
  match m db with
  | (Resolved a, db') => f a db'
  | (Rejected e, db') => (Rejected e, db')
  end.
Proof. reflexivity. Qed.

Lemma update_close_closes fechaFinal reason k db :
  closes fechaFinal reason k db
    (update_close fechaFinal reason k db).1 (update_close fechaFinal reason k db).2.
Proof.
  unfold update_close.
  destruct (trackings db !! k) as [r|] eqn:E; simpl.
  - destruct (fecha_inicio r <=? fechaFinal) eqn:Hle; simpl.
    + eapply closes_row; [done | lia].
    + eapply closes_rejected; [done | lia].
  - by apply closes_no_row.
Qed.

Lemma is_latest_lookup cond t b :
  is_latest cond t b -> t !! id b = Some (row b).
Proof. by intros [? _]. Qed.

Lemma step1_paths data db :
  (exists db1, closeTrackingInOtherPuesto data db = (Resolved tt, db1)
               /\ chain_closed data db db1)
  \/ (exists p, closeTrackingInOtherPuesto data db = (Rejected check_error, db)
                /\ is_latest (open_in_other_puesto data) (trackings db) p
                /\ TrackingData.fecha_inicio data < fecha_inicio p).
Proof.
  unfold closeTrackingInOtherPuesto, mbind, Async_bind.
  destruct (select_latest_answer (open_in_other_puesto data) db)
    as (o & -> & Ho).
  destruct o as [p|]; simpl in Ho.
  - unfold closeTracking; simpl.
    pose proof (update_close_closes (TrackingData.fecha_inicio data)
                  CHAIN_TRANSITION (id p) db) as Hc.
    pose proof (is_latest_lookup _ _ _ Ho) as Hp.
    destruct (update_close _ _ _ db) as [out db1]; simpl in Hc.
    inversion Hc; subst; try congruence.
    + left. eexists. split; [done |].
      assert (r = row p) as -> by congruence. by apply chain_transition.
    + right. exists p. assert (r = row p) as -> by congruence.
      split; [done |]. by split.
  - left. exists db. split; [done |]. by apply chain_nothing.
Qed.

Lemma scan_checks_paths data db :
  checks data db (scan_checks data db).1 (scan_checks data db).2.
Proof.
  unfold scan_checks. rewrite Async_bind_run.
  destruct (step1_paths data db) as [(db1 & -> & H1) | (p & -> & Hp & Hlt)];
    [| by eapply checks_chain_rejected].
  unfold findOpenTrackingInPuesto. rewrite Async_bind_run.
  destruct (select_latest_answer
              (open_in_puesto (TrackingData.puesto_id data)) db1)
    as (o & -> & Ho).
  destruct o as [o|]; simpl in Ho.
  - destruct (same_window o data) eqn:Hw.
    + unfold closeTracking; simpl.
      pose proof (update_close_closes (TrackingData.fecha_inicio data)
                    RESCANNED_SAME_WINDOW (id o) db1) as Hc.
      pose proof (is_latest_lookup _ _ _ Ho) as Hl.
      destruct (update_close _ _ _ db1) as [out db2]; simpl in *.
      inversion Hc; subst; try congruence.
      * assert (r = row o) as -> by congruence.
        eapply checks_passed; [done |]. by apply station_rescanned.
      * eapply checks_rescan_rejected; [done | done | done | congruence].
    + simpl. by eapply checks_occupied.
  - simpl. eapply checks_passed; [done |]. by apply station_free.
Qed.

Lemma checks_error_code data db e db1 :
  checks data db (Rejected e) db1 -> code e <> Some unique_violation.
Proof. inversion 1; subst; done. Qed.

Lemma createTracking_checks data db :
  createTracking data db =
  try_catch (scan_checks data;; scan_insert data) on_error db.
Proof.
  unfold createTracking, scan_checks, scan_insert, try_catch, mbind, Async_bind.
  destruct (closeTrackingInOtherPuesto data db) as [[[]|e] db1]; [| done].
  destruct (findOpenTrackingInPuesto (TrackingData.puesto_id data) db1)
    as [[o|e] db2]; [| done].
  destruct o as [o|]; [| done].
  destruct (same_window o data); [| done].
  by destruct (closeTracking _ _ _ db2) as [[[]|e] db3].
Qed.

Lemma createTracking_paths data db :
  scan data db (createTracking data db).1 (createTracking data db).2.
Proof.
  rewrite createTracking_checks. unfold try_catch, mbind, Async_bind.
  pose proof (scan_checks_paths data db) as Hc.
  destruct (scan_checks data db) as [[[]|e] db2]; simpl in Hc.
  - destruct (in_unique_open_index (TrackingData.puesto_id data)
                (scanned_window data) db2) eqn:Hidx.
    + unfold scan_insert, insert_tracking. unfold scanned_window in Hidx.
      rewrite Hidx. simpl. by apply scan_constraint_violation.
    + pose proof (scan_created data db db2 Hc Hidx) as Hs.
      unfold scan_insert, insert_tracking in *. unfold scanned_window in Hidx.
      rewrite Hidx in *. exact Hs.
  - unfold on_error.
    rewrite bool_decide_eq_false_2 by (by eapply checks_error_code).
    simpl. by apply scan_rejected.
Qed.

(** ** What the insert stores *)

Lemma scan_insert_created data db :
  in_unique_open_index (TrackingData.puesto_id data) (scanned_window data) db
  = false ->
  scan_insert data db =
  (Resolved (mkTrackingRecord (nextval (trackings db))
               (opened_row data (current_timestamp db))),
   write (nextval (trackings db)) (opened_row data (current_timestamp db)) db).
Proof.
  intros H. unfold scan_insert, insert_tracking.
  unfold scanned_window in H. by rewrite H.
Qed.

Lemma createTracking_resolved data db r db' :
  createTracking data db = (Resolved r, db') ->
  exists db2,
    checks data db (Resolved tt) db2
    /\ in_unique_open_index (TrackingData.puesto_id data) (scanned_window data)
         db2 = false
    /\ r = mkTrackingRecord (nextval (trackings db2))
             (opened_row data (current_timestamp db2))
    /\ db' = write (id r) (row r) db2.
Proof.
  intros H. pose proof (createTracking_paths data db) as Hs.
  rewrite H in Hs. simpl in Hs. inversion Hs as [| |db2 Hc Hidx Hout Hdb].
  rewrite (scan_insert_created _ _ Hidx) in Hout, Hdb. simpl in *.
  injection Hout as <-. exists db2. repeat split; try done.
  by rewrite (scan_insert_created _ _ Hidx).
Qed.

Lemma lookup_write k r db k' :
  trackings (write k r db) !! k' = if decide (k = k') then Some r else trackings db !! k'.
Proof. unfold write. simpl. apply lookup_insert. Qed.

Lemma lookup_write_eq k r db : trackings (write k r db) !! k = Some r.
Proof. rewrite lookup_write. by rewrite decide_True. Qed.

Lemma lookup_write_ne k r db k' :
  k <> k' -> trackings (write k r db) !! k' = trackings db !! k'.
Proof. intros. rewrite lookup_write. by rewrite decide_False. Qed.

(** ** User ids of created intervals *)

(** C10: when the scan carries [user_id = 0], a successful [createTracking]
    returns and stores an interval whose [user_id] is null; in general the
    created interval has a user id [u] exactly when the scan carried that
    [u] and [u] is truthy (non-zero). *)
Theorem createTracking_falsy_user_id data db r db' :
  createTracking data db = (Resolved r, db') ->
  trackings db' !! id r = Some (row r)
  /\ (TrackingData.user_id data = Some 0 -> user_id r = None)
  /\ (forall u, user_id r = Some u <->
                TrackingData.user_id data = Some u /\ u <> 0).
Proof.
  intros H.
  destruct (createTracking_resolved _ _ _ _ H) as (db2 & _ & _ & Hr & Hdb).
  subst r db'. simpl.
  split; [apply lookup_write_eq |].
  split; [by intros -> |].
  intros u. unfold or_null.
  destruct (TrackingData.user_id data) as [n|]; [| split; [done | by intros [? _]]].
  destruct (n =? 0) eqn:E; split.
  - done.
  - intros [[= ->] Hu]. lia.
  - intros [= ->]. split; [done | lia].
  - by intros [[= ->] _].
Qed.

Lemma createTracking_falsy_user_id_witness :
  exists r db',
    createTracking (TrackingData.mk 1 "TEST001" 1 1 36000 (Some 0))
      (empty_db 40000) = (Resolved r, db')
    /\ trackings db' !! id r = Some (row r)
    /\ user_id r = None.
Proof.
  eexists _, _. split; [vm_compute; reflexivity |].
  pose proof (createTracking_falsy_user_id
                (TrackingData.mk 1 "TEST001" 1 1 36000 (Some 0))
                (empty_db 40000) _ _ eq_refl) as (H1 & H2 & _).
  split; [exact H1 | exact (H2 eq_refl)].
Defined.

(** ** Frame: what steps 1 and 2 may touch *)

Lemma open_in_other_puesto_open data r :
  open_in_other_puesto data r = true -> is_open r = true.
Proof. unfold open_in_other_puesto. by intros [_ ?]%andb_true_iff. Qed.

Lemma open_in_puesto_open puestoId r :
  open_in_puesto puestoId r = true -> is_open r = true.
Proof. unfold open_in_puesto. by intros [_ ?]%andb_true_iff. Qed.

Lemma open_in_other_puesto_true data (r : TrackingRecord) :
  open_in_other_puesto data r = true <->
  window r = scanned_window data
  /\ puesto_id r <> TrackingData.puesto_id data /\ is_open r = true.
Proof.
  unfold open_in_other_puesto, window, scanned_window.
  rewrite !andb_true_iff, bool_decide_eq_true, negb_true_iff.
  rewrite !Z.eqb_eq, Z.eqb_neq. split.
  - intros [[[[-> ->] ->] Hp] Ho]. done.
  - intros [[= -> -> ->] [Hp Ho]]. done.
Qed.

Lemma open_in_puesto_true puestoId (r : TrackingRecord) :
  open_in_puesto puestoId r = true <->
  puesto_id r = puestoId /\ is_open r = true.
Proof. unfold open_in_puesto. rewrite andb_true_iff, Z.eqb_eq. done. Qed.

Lemma same_window_true (r : TrackingRecord) data :
  same_window r data = true <-> window r = scanned_window data.
Proof.
  unfold same_window, window, scanned_window.
  rewrite !andb_true_iff, bool_decide_eq_true, !Z.eqb_eq. split.
  - intros [[-> ->] ->]. done.
  - intros [= -> -> ->]. done.
Qed.

Lemma chain_closed_closed_in data db db1 :
  chain_closed data db db1 ->
  closed_in (open_in_other_puesto data) (TrackingData.fecha_inicio data)
    CHAIN_TRANSITION db db1.
Proof.
  intros [_ | p (Hp & Hc & _) _]; [apply closed_in_none |].
  apply closed_in_one; [done | done |]. by eapply open_in_other_puesto_open.
Qed.

Lemma station_cleared_closed_in data db db1 :
  station_cleared data db db1 ->
  closed_in (rescanned data) (TrackingData.fecha_inicio data)
    RESCANNED_SAME_WINDOW db db1.
Proof.
  intros [_ | o (Ho & Hc & _) Hw _]; [apply closed_in_none |].
  apply closed_in_one; [done | |].
  - unfold rescanned. by rewrite Hc, Hw.
  - by eapply open_in_puesto_open.
Qed.




(** Every open row afterwards was there before, unchanged. *)
Lemma closed_in_open_before cond fechaFinal reason db db1 k r :
  closed_in cond fechaFinal reason db db1 ->
  trackings db1 !! k = Some r ->
  is_open r = true ->
  trackings db !! k = Some r.
Proof.
  intros [|p Hp Hc Ho] Hk Hopen; [done |].
  rewrite lookup_write in Hk. destruct (decide (id p = k)); [| done].
  injection Hk as <-. done.
Qed.

Lemma record_eta (b : TrackingRecord) : mkTrackingRecord (id b) (row b) = b.
Proof. by destruct b. Qed.

Lemma checks_closed_in data db out db2 :
  checks data db out db2 ->
  exists db1,
    closed_in (open_in_other_puesto data) (TrackingData.fecha_inicio data)
      CHAIN_TRANSITION db db1
    /\ closed_in (rescanned data) (TrackingData.fecha_inicio data)
         RESCANNED_SAME_WINDOW db1 db2.
Proof.
  intros [p _ _ | db1 o H1 _ _ | db1 o H1 _ _ _ | db1 db2' H1 H2].
  - exists db. split; apply closed_in_none.
  - exists db1. split; [by apply chain_closed_closed_in | apply closed_in_none].
  - exists db1. split; [by apply chain_closed_closed_in | apply closed_in_none].
  - exists db1. split; [by apply chain_closed_closed_in |].
    by apply station_cleared_closed_in.
Qed.

(** Every run of [createTracking] is: at most one close by step 1, at most
    one close by step 2, then at most the insert of the returned row under a
    fresh id. *)
Lemma createTracking_frame data db :
  exists db1 db2,
    closed_in (open_in_other_puesto data) (TrackingData.fecha_inicio data)
      CHAIN_TRANSITION db db1
    /\ closed_in (rescanned data) (TrackingData.fecha_inicio data)
         RESCANNED_SAME_WINDOW db1 db2
    /\ ((createTracking data db).2 = db2
        \/ exists r, createTracking data db = (Resolved r, write (id r) r db2)
                     /\ id r = nextval (trackings db2)).
Proof.
  pose proof (createTracking_paths data db) as Hs.
  destruct (createTracking data db) as [out db'] eqn:E. simpl in *.
  inversion Hs as [e db1 Hc | db2 Hc Hidx | db2 Hc Hidx Hout Hdb]; subst.
  - destruct (checks_closed_in _ _ _ _ Hc) as (dbm & H1 & H2).
    exists dbm, db'. by repeat split; [| | left].
  - destruct (checks_closed_in _ _ _ _ Hc) as (dbm & H1 & H2).
    exists dbm, db'. by repeat split; [| | left].
  - destruct (checks_closed_in _ _ _ _ Hc) as (dbm & H1 & H2).
    exists dbm, db2. repeat split; [done | done |]. right.
    rewrite (scan_insert_created _ _ Hidx). simpl.
    by exists (mkTrackingRecord (nextval (trackings db2))
                 (opened_row data (current_timestamp db2))).
Qed.

(** ** Closed intervals *)




(** ** Closing by id *)



(** ** Malformed scans *)






(** ** One scan closes at most one interval *)

Lemma closed_in_cases cond fechaFinal reason db db1 :
  closed_in cond fechaFinal reason db db1 ->
  db1 = db
  \/ exists p, trackings db !! id p = Some (row p) /\ cond p = true
               /\ is_open p = true
               /\ db1 = write (id p)
                          (closed_row fechaFinal reason (current_timestamp db) p)
                          db.
Proof. intros [|p ? ? ?]; [by left | right; by exists p]. Qed.

Lemma steps_close_at_most_one data db db1 db2 :
  single_location (trackings db) ->
  closed_in (open_in_other_puesto data) (TrackingData.fecha_inicio data)
    CHAIN_TRANSITION db db1 ->
  closed_in (rescanned data) (TrackingData.fecha_inicio data)
    RESCANNED_SAME_WINDOW db1 db2 ->
  exists closed : option Z,
    (forall k, closed = Some k -> closed_between db db2 k)
    /\ (forall k r, trackings db !! k = Some r -> closed <> Some k ->
                    trackings db2 !! k = Some r)
    /\ (forall k, trackings db !! k = None -> trackings db2 !! k = None).
Proof.
  intros HI2 H1 H2.
  destruct (closed_in_cases _ _ _ _ _ H1) as [-> | (p & Hp & Hcp & Hop & ->)];
    destruct (closed_in_cases _ _ _ _ _ H2) as [-> | (o & Ho & Hco & Hoo & ->)].
  - exists None. by repeat split.
  - exists (Some (id o)). repeat split.
    + intros k [= <-]. exists (row o), (TrackingData.fecha_inicio data),
        RESCANNED_SAME_WINDOW. by rewrite lookup_write_eq.
    + intros k r Hk Hne. rewrite lookup_write_ne; [done | congruence].
    + intros k Hk. rewrite lookup_write_ne; [done | congruence].
  - exists (Some (id p)). repeat split.
    + intros k [= <-]. exists (row p), (TrackingData.fecha_inicio data),
        CHAIN_TRANSITION. by rewrite lookup_write_eq.
    + intros k r Hk Hne. rewrite lookup_write_ne; [done | congruence].
    + intros k Hk. rewrite lookup_write_ne; [done | congruence].
  - exfalso.
    rewrite lookup_write in Ho.
    destruct (decide (id p = id o)) as [Heq | Hne].
    { injection Ho as Ho. rewrite <- Ho in Hoo. done. }
    apply open_in_other_puesto_true in Hcp as (Hwp & Hpp & _).
    unfold rescanned in Hco. apply andb_true_iff in Hco as [Hpo Hwo].
    apply open_in_puesto_true in Hpo as [Hpo _].
    apply same_window_true in Hwo.
    apply Hne. eapply HI2; [exact Hp | exact Ho | done | done | congruence].
Qed.

(** C4, as the code has it: on a store in which every window identity has at
    most one open interval (I2), a call to [createTracking] closes at most one
    prior interval, leaves every other prior interval exactly as it was, and
    adds nothing but the interval it returns. *)
Theorem createTracking_closes_at_most_one data db :
  single_location (trackings db) ->
  closes_at_most_one data db.
Proof.
  intros HI2. unfold closes_at_most_one.
  destruct (createTracking_frame data db) as (db1 & db2 & H1 & H2 & H3).
  destruct (steps_close_at_most_one _ _ _ _ HI2 H1 H2)
    as (closed & Hclosed & Hkept & Hnew).
  exists closed.
  destruct H3 as [-> | (r' & -> & Hid)]; [by repeat split; auto |].
  cbn [fst snd]. repeat split.
  - intros k Hk. destruct (Hclosed k Hk) as (r & t & reason & Hr & Ho & Hr').
    exists r, t, reason. repeat split; [done | done |].
    rewrite lookup_write_ne; [done |].
    rewrite Hid. intros Heq. apply nextval_above in Hr'. lia.
  - intros k r Hk Hne. pose proof (Hkept k r Hk Hne) as Hk2.
    rewrite lookup_write_ne; [done |].
    rewrite Hid. intros Heq. apply nextval_above in Hk2. lia.
  - intros k Hk. rewrite lookup_write.
    destruct (decide (id r' = k)) as [<- | Hne]; [| left; by apply Hnew].
    right. by exists r'.
Qed.

(** The window is open at both workstations ([open_twice]) and is scanned
    again at workstation 1: step 1 closes the interval at workstation 2 and
    step 2 the one at workstation 1. *)
Lemma createTracking_closes_two :
  closed_between open_twice (createTracking rescan_P1 open_twice).2 1
  /\ closed_between open_twice (createTracking rescan_P1 open_twice).2 2
  /\ ~ closes_at_most_one rescan_P1 open_twice.
Proof.
  assert (trackings open_twice !! 1 = Some (opened_row scan_P2_at_10_30 40000))
    as E1 by (vm_compute; reflexivity).
  assert (trackings open_twice !! 2 = Some (opened_row scan_P1_at_10_00 40000))
    as E2 by (vm_compute; reflexivity).
  assert (closed_between open_twice (createTracking rescan_P1 open_twice).2 1)
    as H1.
  { exists (opened_row scan_P2_at_10_30 40000), 39600, CHAIN_TRANSITION.
    repeat split; vm_compute; reflexivity. }
  assert (closed_between open_twice (createTracking rescan_P1 open_twice).2 2)
    as H2.
  { exists (opened_row scan_P1_at_10_00 40000), 39600, RESCANNED_SAME_WINDOW.
    repeat split; vm_compute; reflexivity. }
  split; [done |]. split; [done |].
  intros (closed & _ & Hkept & _).
  destruct (decide (closed = Some 1)) as [-> | Hn1].
  - specialize (Hkept 2 _ E2 ltac:(discriminate)).
    vm_compute in Hkept. discriminate Hkept.
  - specialize (Hkept 1 _ E1 Hn1).
    vm_compute in Hkept. discriminate Hkept.
Qed.

Lemma createTracking_closes_at_most_one_witness :
  closes_at_most_one rescan_P1 open_at_P1.
Proof.
  apply createTracking_closes_at_most_one.
  intros k1 k2 r1 r2 H1 H2 _ _ _. unfold open_at_P1 in H1, H2.
  rewrite lookup_write in H1, H2. simpl in H1, H2.
  rewrite lookup_empty in H1, H2.
  destruct (decide (1 = k1)), (decide (1 = k2)); congruence.
Defined.

(** ** Scanning at an occupied workstation *)






(** ** Two scans in a row *)

(** After step 1, every interval of the scanned window still open at another
    workstation started no later than the scan. *)
Lemma chain_closed_bound data db db1 k r :
  chain_closed data db db1 ->
  trackings db1 !! k = Some r ->
  open_in_other_puesto data (mkTrackingRecord k r) = true ->
  fecha_inicio r <= TrackingData.fecha_inicio data.
Proof.
  intros H1 Hk Hc.
  pose proof (closed_in_open_before _ _ _ _ _ _ _
                (chain_closed_closed_in _ _ _ H1) Hk
                (open_in_other_puesto_open _ _ Hc)) as Hk0.
  destruct H1 as [Hnone | p (_ & _ & Hmax) Hle].
  - simpl in Hnone. rewrite (Hnone _ _ Hk0) in Hc. done.
  - pose proof (Hmax _ _ Hk0 Hc) as Hs. unfold sorts_before in Hs.
    simpl in Hs. lia.
Qed.

(** After step 2, every interval still open at the scanned workstation
    started no later than the scan. *)
Lemma station_cleared_bound data db db2 k r :
  station_cleared data db db2 ->
  trackings db2 !! k = Some r ->
  open_in_puesto (TrackingData.puesto_id data) (mkTrackingRecord k r) = true ->
  fecha_inicio r <= TrackingData.fecha_inicio data.
Proof.
  intros H2 Hk Hc.
  pose proof (closed_in_open_before _ _ _ _ _ _ _
                (station_cleared_closed_in _ _ _ H2) Hk
                (open_in_puesto_open _ _ Hc)) as Hk0.
  destruct H2 as [Hnone | o (_ & _ & Hmax) _ Hle].
  - simpl in Hnone. rewrite (Hnone _ _ Hk0) in Hc. done.
  - pose proof (Hmax _ _ Hk0 Hc) as Hs. unfold sorts_before in Hs.
    simpl in Hs. lia.
Qed.

Lemma checks_resolved data db db2 :
  checks data db (Resolved tt) db2 ->
  exists db1, chain_closed data db db1 /\ station_cleared data db1 db2.
Proof. inversion 1; subst. by eexists. Qed.

(** The state a successful scan leaves behind: the created interval [r] is
    stored, it is the only open interval of its window at its workstation,
    and it sorts first among all open intervals that are at its workstation
    or of its window. *)
Lemma created_leads data db r db' :
  createTracking data db = (Resolved r, db') ->
  trackings db' !! id r = Some (row r)
  /\ row r = opened_row data (current_timestamp db')
  /\ (forall k r0, trackings db' !! k = Some r0 -> is_open r0 = true ->
        window r0 = scanned_window data
        \/ puesto_id r0 = TrackingData.puesto_id data ->
        sorts_before (mkTrackingRecord k r0) r = false)
  /\ (forall k r0, trackings db' !! k = Some r0 -> is_open r0 = true ->
        window r0 = scanned_window data ->
        puesto_id r0 = TrackingData.puesto_id data -> k = id r).
Proof.
  intros H.
  destruct (createTracking_resolved _ _ _ _ H) as (db2 & Hc & Hidx & Hr & Hdb).
  destruct (checks_resolved _ _ _ Hc) as (db1 & H1 & H2).
  subst r db'. cbn [id row]. repeat split.
  - apply lookup_write_eq.
  - intros k r0 Hk Ho Hor. rewrite lookup_write in Hk.
    destruct (decide (nextval (trackings db2) = k)) as [<- | Hne].
    { injection Hk as <-. apply sorts_before_irrefl. }
    pose proof (nextval_above _ _ _ Hk) as Hlt.
    assert (fecha_inicio r0 <= TrackingData.fecha_inicio data) as Hle.
    { destruct (decide (puesto_id r0 = TrackingData.puesto_id data)) as [Hp|Hp].
      - eapply station_cleared_bound; [done | done |].
        by apply open_in_puesto_true.
      - destruct Hor as [Hw | ?]; [| done].
        eapply chain_closed_bound; [done | |].
        + eapply closed_in_open_before; [| done | done].
          by eapply station_cleared_closed_in.
        + by apply open_in_other_puesto_true. }
    unfold sorts_before. simpl. lia.
  - intros k r0 Hk Ho Hw Hp. rewrite lookup_write in Hk.
    destruct (decide (nextval (trackings db2) = k)) as [<- | Hne]; [done |].
    assert (in_unique_open_index (TrackingData.puesto_id data)
              (scanned_window data) db2 = true) as Htrue.
    { apply in_unique_open_index_true. by exists k, r0. }
    congruence.
Qed.


Lemma scan_P1_run :
  createTracking scan_P1_at_10_00 (empty_db 40000)
  = (Resolved created_P1, after_P1).
Proof. vm_compute. reflexivity. Qed.

Lemma scan_P2_run :
  createTracking scan_P2_at_10_30 after_P1 = (Resolved created_P2, after_P2).
Proof. vm_compute. reflexivity. Qed.

Lemma scan_P3_run :
  createTracking scan_P3_at_11_00 after_P2 = (Resolved created_P3, after_P3).
Proof. vm_compute. reflexivity. Qed.




(** ** A scan that loses a race *)

Lemma createTracking_raced_alone data db :
  createTracking_raced (fun db' => db') data db = createTracking data db.
Proof.
  rewrite createTracking_checks. unfold createTracking_raced, try_catch.
  rewrite !Async_bind_run.
  by destruct (scan_checks data db) as [[[]|e] db2].
Qed.

(** C6, as the code has it: when steps 1 and 2 pass and another writer's
    commit makes the insert of step 3 violate [idx_unique_open_tracking], the
    storage client rejects the insert with SQLSTATE 23505; the [catch] block
    recognises it by that code and the call is rejected with a new bare
    [Error] carrying the fixed "Database constraint violation" message and no
    code.  Nothing of this call's insert is stored. *)
Theorem createTracking_raced_constraint_violation other data db db2 :
  scan_checks data db = (Resolved tt, db2) ->
  in_unique_open_index (TrackingData.puesto_id data) (scanned_window data)
    (other db2) = true ->
  scan_insert data (other db2) =
    (Rejected (DatabaseError unique_violation "idx_unique_open_tracking"),
     other db2)
  /\ createTracking_raced other data db =
       (Rejected (Error DatabaseConstraintViolation), other db2)
  /\ plain_Error (Error DatabaseConstraintViolation)
  /\ code (Error DatabaseConstraintViolation) = None.
Proof.
  intros Hchecks Hidx.
  assert (scan_insert data (other db2) =
          (Rejected (DatabaseError unique_violation "idx_unique_open_tracking"),
           other db2)) as Hinsert.
  { unfold scan_insert, insert_tracking. unfold scanned_window in Hidx.
    by rewrite Hidx. }
  split; [done |]. split; [| done].
  unfold createTracking_raced, try_catch. rewrite !Async_bind_run.
  rewrite Hchecks. rewrite Async_bind_run. by rewrite Hinsert.
Qed.

Lemma createTracking_raced_constraint_violation_witness :
  createTracking_raced concurrent_scan scan_P1_at_10_00 (empty_db 40000) =
  (Rejected (Error DatabaseConstraintViolation), after_P1).
Proof.
  apply (createTracking_raced_constraint_violation concurrent_scan
           scan_P1_at_10_00 (empty_db 40000) (empty_db 40000));
    vm_compute; reflexivity.
Defined.

(** The error the loser of that race gets is a bare [Error] without a code,
    of the same kind as the error of the occupancy check. *)
Lemma createTracking_raced_throws_plain_Error :
  exists e,
    (createTracking_raced concurrent_scan scan_P1_at_10_00 (empty_db 40000)).1
    = Rejected e
    /\ plain_Error e
    /\ code e = None
    /\ exists e',
         (createTracking rescan_P1 occupied_P1).1 = Rejected e'
         /\ plain_Error e' /\ code e' = None.
Proof.
  exists (Error DatabaseConstraintViolation).
  split; [vm_compute; reflexivity |]. split; [done |]. split; [done |].
  exists (Error (CannotCreateTracking 1 "TEST_A" 1 1 36000)).
  split; [vm_compute; reflexivity |]. done.
Qed.

(** ** Overlap detection *)

Lemma elem_of_tracking_periods db t :
  t ∈ tracking_periods db <->
  exists k r, trackings db !! k = Some r
              /\ t = tracking_period (current_timestamp db)
                       (mkTrackingRecord k r).
Proof.
  unfold tracking_periods. rewrite list_elem_of_fmap. split.
  - intros ([k r] & -> & Hin). apply elem_of_rows in Hin. by exists k, r.
  - intros (k & r & Hk & ->). exists (mkTrackingRecord k r).
    split; [done |]. by apply elem_of_rows.
Qed.

Lemma join_where_reported now k1 r1 k2 r2 :
  join_on (tracking_period now (mkTrackingRecord k1 r1))
          (tracking_period now (mkTrackingRecord k2 r2))
  && overlap_where (tracking_period now (mkTrackingRecord k1 r1))
                   (tracking_period now (mkTrackingRecord k2 r2)) = true
  <-> reported_pair now k1 r1 k2 r2.
Proof.
  unfold join_on, overlap_where, reported_pair, end_or_now. simpl.
  rewrite !andb_true_iff, Z.eqb_eq, !Z.ltb_lt, Z.gtb_gt. lia.
Qed.

(** The rows of [findOverlaps] are exactly the rows of the reported pairs. *)
Lemma elem_of_overlaps_query db o :
  o ∈ overlaps_query db <->
  exists k1 r1 k2 r2,
    trackings db !! k1 = Some r1 /\ trackings db !! k2 = Some r2
    /\ reported_pair (current_timestamp db) k1 r1 k2 r2
    /\ o = reported_row (current_timestamp db) k1 r1 k2 r2.
Proof.
  unfold overlaps_query. rewrite merge_sort_Permutation.
  rewrite list_elem_of_bind. split.
  - intros (t1 & Hin & H1). apply list_elem_of_bind in Hin as (t2 & Hin & H2).
    apply elem_of_tracking_periods in H1 as (k1 & r1 & Hk1 & ->).
    apply elem_of_tracking_periods in H2 as (k2 & r2 & Hk2 & ->).
    destruct (join_on _ _ && overlap_where _ _) eqn:E.
    + apply list_elem_of_singleton in Hin as ->.
      exists k1, r1, k2, r2. repeat split; try done.
      all: by apply join_where_reported in E as (? & ? & ? & ?).
    + by apply elem_of_nil in Hin.
  - intros (k1 & r1 & k2 & r2 & Hk1 & Hk2 & Hrep & ->).
    exists (tracking_period (current_timestamp db) (mkTrackingRecord k1 r1)).
    split; [| apply elem_of_tracking_periods; by exists k1, r1].
    apply list_elem_of_bind.
    exists (tracking_period (current_timestamp db) (mkTrackingRecord k2 r2)).
    split; [| apply elem_of_tracking_periods; by exists k2, r2].
    apply join_where_reported in Hrep. rewrite Hrep.
    by apply list_elem_of_singleton.
Qed.

(** For two intervals that each last some time, the query's [WHERE] clause
    says that their half-open ranges share an instant. *)
Lemma where_iff_ranges_intersect now r1 r2 :
  fecha_inicio r1 < end_or_now now r1 ->
  fecha_inicio r2 < end_or_now now r2 ->
  (fecha_inicio r1 < end_or_now now r2 /\ fecha_inicio r2 < end_or_now now r1)
  <-> ranges_intersect now r1 r2.
Proof.
  unfold ranges_intersect, in_range, end_or_now. intros Hn1 Hn2. split.
  - intros [H1 H2]. exists (Z.max (fecha_inicio r1) (fecha_inicio r2)). lia.
  - intros (x & Hx1 & Hx2). lia.
Qed.

(** [overlap_seconds] measures the common part of the two ranges. *)
Lemma overlap_seconds_measures now k1 r1 k2 r2 x :
  (in_range now r1 x /\ in_range now r2 x) <->
  (Z.max (fecha_inicio r1) (fecha_inicio r2) <= x
   < Z.max (fecha_inicio r1) (fecha_inicio r2)
     + Overlap.overlap_seconds (reported_row now k1 r1 k2 r2)).
Proof. unfold in_range, reported_row, overlap_row. simpl. lia. Qed.

Lemma reported_row_inj now k1 r1 k2 r2 k1' r1' k2' r2' :
  reported_row now k1 r1 k2 r2 = reported_row now k1' r1' k2' r2' ->
  k1 = k1' /\ k2 = k2'.
Proof. unfold reported_row, overlap_row. simpl. by intros [= -> _ _ _ _ _ _ ->]. Qed.

Lemma reported_row_elem db k1 r1 k2 r2 :
  trackings db !! k1 = Some r1 ->
  trackings db !! k2 = Some r2 ->
  reported_row (current_timestamp db) k1 r1 k2 r2 ∈ overlaps_query db <->
  reported_pair (current_timestamp db) k1 r1 k2 r2.
Proof.
  intros Hk1 Hk2. rewrite elem_of_overlaps_query. split.
  - intros (k1' & r1' & k2' & r2' & Hk1' & Hk2' & Hrep & Heq).
    apply reported_row_inj in Heq as [-> ->].
    by replace r1 with r1' by congruence; replace r2 with r2' by congruence.
  - intros Hrep. by exists k1, r1, k2, r2.
Qed.

Lemma chain_scenario_run : chain_scenario 40000 = after_P3.
Proof.
  unfold chain_scenario. rewrite scan_P1_run. cbn [snd].
  rewrite scan_P2_run. cbn [snd]. by rewrite scan_P3_run.
Qed.

(** The three intervals of the scenario: [10:00, 10:30, CHAIN_TRANSITION],
    [10:30, 11:00, CHAIN_TRANSITION] and [11:00, null, null]. *)
Lemma chain_scenario_intervals now :
  (fun r : Row => (puesto_id r, fecha_inicio r, fecha_final r, closure_reason r))
    <$> trackings (chain_scenario now)
  = {[ 1 := (1, 36000, Some 37800, Some CHAIN_TRANSITION);
       2 := (2, 37800, Some 39600, Some CHAIN_TRANSITION);
       3 := (3, 39600, None, None) ]}.
Proof. vm_compute. reflexivity. Qed.

Lemma chain_scenario_no_overlap now : overlaps_query (chain_scenario now) = [].
Proof. vm_compute. reflexivity. Qed.

(** C5, as the code has it.  [findOverlaps] changes nothing and returns one
    row for exactly those pairs of stored intervals, the one with the lower
    id first, that share the workstation and satisfy
    [start1 < end2] and [start2 < end1], where an open interval ends now.
    For two intervals that each last some time ([start < end]) this says
    that their half-open ranges intersect, and [overlap_seconds] is the
    length of the common part.  Two intervals where one ends when the other
    starts are never returned, and the chain scenario P1(10:00), P2(10:30),
    P3(11:00) returns no row. *)
Theorem findOverlaps_reports db :
  findOverlaps db = (Resolved (overlaps_query db), db)
  /\ (forall o,
        o ∈ overlaps_query db <->
        exists k1 r1 k2 r2,
          trackings db !! k1 = Some r1 /\ trackings db !! k2 = Some r2
          /\ reported_pair (current_timestamp db) k1 r1 k2 r2
          /\ o = reported_row (current_timestamp db) k1 r1 k2 r2)
  /\ (forall k1 r1 k2 r2,
        trackings db !! k1 = Some r1 -> trackings db !! k2 = Some r2 ->
        k1 < k2 ->
        fecha_inicio r1 < end_or_now (current_timestamp db) r1 ->
        fecha_inicio r2 < end_or_now (current_timestamp db) r2 ->
        (reported_row (current_timestamp db) k1 r1 k2 r2 ∈ overlaps_query db
         <-> puesto_id r1 = puesto_id r2
             /\ ranges_intersect (current_timestamp db) r1 r2)
        /\ (forall x,
              (in_range (current_timestamp db) r1 x
               /\ in_range (current_timestamp db) r2 x)
              <-> (Z.max (fecha_inicio r1) (fecha_inicio r2) <= x
                   < Z.max (fecha_inicio r1) (fecha_inicio r2)
                     + Overlap.overlap_seconds
                         (reported_row (current_timestamp db) k1 r1 k2 r2))))
  /\ (forall k1 r1 k2 r2,
        trackings db !! k1 = Some r1 -> trackings db !! k2 = Some r2 ->
        fecha_final r1 = Some (fecha_inicio r2) ->
        (reported_row (current_timestamp db) k1 r1 k2 r2 ∉ overlaps_query db)
        /\ (reported_row (current_timestamp db) k2 r2 k1 r1
              ∉ overlaps_query db))
  /\ (forall now, overlaps_query (chain_scenario now) = []).
Proof.
  split; [done |]. split; [apply elem_of_overlaps_query |].
  split; [| split; [| apply chain_scenario_no_overlap]].
  - intros k1 r1 k2 r2 Hk1 Hk2 Hlt Hn1 Hn2.
    split; [| intros x; apply overlap_seconds_measures].
    rewrite (reported_row_elem _ _ _ _ _ Hk1 Hk2).
    rewrite <- (where_iff_ranges_intersect _ _ _ Hn1 Hn2).
    unfold reported_pair. tauto.
  - intros k1 r1 k2 r2 Hk1 Hk2 Htouch.
    rewrite (reported_row_elem _ _ _ _ _ Hk1 Hk2).
    rewrite (reported_row_elem _ _ _ _ _ Hk2 Hk1).
    unfold reported_pair, end_or_now. rewrite Htouch. simpl. lia.
Qed.

Lemma backdated_rescan_rows :
  trackings backdated_rescan
  = {[ 1 := long_interval; 2 := instant_interval; 3 := reopened_interval ]}.
Proof. vm_compute. reflexivity. Qed.

(** An interval of no duration inside the time another interval spent at the
    same workstation: its half-open range is empty, so it intersects nothing,
    yet the pair is returned, with an overlap of 0 seconds. *)
Lemma findOverlaps_reports_empty_range :
  trackings backdated_rescan !! 1 = Some long_interval
  /\ trackings backdated_rescan !! 2 = Some instant_interval
  /\ fecha_inicio instant_interval = 37800
  /\ fecha_final instant_interval = Some 37800
  /\ (reported_row 40000 1 long_interval 2 instant_interval
        ∈ overlaps_query backdated_rescan)
  /\ Overlap.overlap_seconds
       (reported_row 40000 1 long_interval 2 instant_interval) = 0
  /\ ~ ranges_intersect 40000 long_interval instant_interval.
Proof.
  split; [vm_compute; reflexivity |]. split; [vm_compute; reflexivity |].
  split; [reflexivity |]. split; [reflexivity |].
  split; [vm_compute; right; left |]. split; [reflexivity |].
  intros (x & _ & Hx). unfold in_range, instant_interval in Hx.
  simpl in Hx. lia.
Qed.

Lemma findOverlaps_reports_witness :
  (reported_row 40000 1 long_interval 3 reopened_interval
     ∈ overlaps_query backdated_rescan)
  /\ (reported_row 40000 2 instant_interval 3 reopened_interval
        ∉ overlaps_query backdated_rescan).
Proof.
  pose proof (findOverlaps_reports backdated_rescan)
    as (_ & _ & Hranges & Htouch & _).
  assert (trackings backdated_rescan !! 1 = Some long_interval) as E1
    by (vm_compute; reflexivity).
  assert (trackings backdated_rescan !! 2 = Some instant_interval) as E2
    by (vm_compute; reflexivity).
  assert (trackings backdated_rescan !! 3 = Some reopened_interval) as E3
    by (vm_compute; reflexivity).
  split.
  - destruct (Hranges 1 long_interval 3 reopened_interval
                E1 E3 eq_refl eq_refl eq_refl) as [Hiff _].
    apply Hiff. split; [reflexivity |].
    exists 38000. unfold in_range, long_interval, reopened_interval. simpl.
    replace (current_timestamp backdated_rescan) with 40000
      by (vm_compute; reflexivity).
    lia.
  - exact (proj1 (Htouch 2 instant_interval 3 reopened_interval
                    E2 E3 eq_refl)).
Defined.

(** * Further properties of the service *)

(** ** Where the rows of the table come from *)

Lemma chain_closed_rows data db db1 k r' :
  chain_closed data db db1 ->
  trackings db1 !! k = Some r' ->
  trackings db !! k = Some r'
  \/ exists r, trackings db !! k = Some r
               /\ closed_by_scan data (current_timestamp db) r r'.
Proof.
  intros [_ | p (Hp & Hc & _) Hle] Hk; [by left |].
  rewrite lookup_write in Hk. destruct (decide (id p = k)) as [<- | _];
    [| by left].
  injection Hk as <-. right. exists (row p). split; [done |].
  split; [by eapply open_in_other_puesto_open |]. split; [done |].
  exists CHAIN_TRANSITION. split; [by left | done].
Qed.

Lemma station_cleared_rows data db db1 k r' :
  station_cleared data db db1 ->
  trackings db1 !! k = Some r' ->
  trackings db !! k = Some r'
  \/ exists r, trackings db !! k = Some r
               /\ closed_by_scan data (current_timestamp db) r r'.
Proof.
  intros [_ | o (Ho & Hc & _) _ Hle] Hk; [by left |].
  rewrite lookup_write in Hk. destruct (decide (id o = k)) as [<- | _];
    [| by left].
  injection Hk as <-. right. exists (row o). split; [done |].
  split; [by eapply open_in_puesto_open |]. split; [done |].
  exists RESCANNED_SAME_WINDOW. split; [by right | done].
Qed.

Lemma chain_closed_timestamp data db db1 :
  chain_closed data db db1 -> current_timestamp db1 = current_timestamp db.
Proof. by intros []. Qed.

Lemma station_cleared_timestamp data db db1 :
  station_cleared data db db1 -> current_timestamp db1 = current_timestamp db.
Proof. by intros []. Qed.

Lemma closed_by_scan_not_open data now r r' :
  closed_by_scan data now r r' -> is_open r' = false.
Proof. by intros (_ & _ & reason & _ & ->). Qed.

Lemma checks_rows data db out db2 k r' :
  checks data db out db2 ->
  trackings db2 !! k = Some r' ->
  trackings db !! k = Some r'
  \/ exists r, trackings db !! k = Some r
               /\ closed_by_scan data (current_timestamp db) r r'.
Proof.
  assert (forall db1, chain_closed data db db1 ->
            forall db2', (db2' = db1 \/ station_cleared data db1 db2') ->
            trackings db2' !! k = Some r' ->
            trackings db !! k = Some r'
            \/ exists r, trackings db !! k = Some r
                         /\ closed_by_scan data (current_timestamp db) r r')
    as Hsteps.
  { intros db1 H1 db2' H2 Hk.
    assert (trackings db1 !! k = Some r'
            \/ exists r, trackings db1 !! k = Some r
                         /\ closed_by_scan data (current_timestamp db) r r')
      as [Hk1 | (r & Hk1 & Hclosed)].
    { destruct H2 as [-> | H2]; [by left |].
      rewrite <- (chain_closed_timestamp _ _ _ H1).
      by eapply station_cleared_rows. }
    - by eapply chain_closed_rows.
    - destruct (chain_closed_rows _ _ _ _ _ H1 Hk1)
        as [Hk0 | (r0 & Hk0 & Hc0)].
      + right. by exists r.
      + apply closed_by_scan_not_open in Hc0.
        destruct Hclosed as (Hopen & _). congruence. }
  intros [p _ _ | db1 o H1 _ _ | db1 o H1 _ _ _ | db1 db2' H1 H2] Hk.
  - by left.
  - eapply Hsteps; [done | by left | done].
  - eapply Hsteps; [done | by left | done].
  - eapply Hsteps; [done | by right | done].
Qed.

Lemma checks_timestamp data db out db2 :
  checks data db out db2 -> current_timestamp db2 = current_timestamp db.
Proof.
  intros [p _ _ | db1 o H1 _ _ | db1 o H1 _ _ _ | db1 db2' H1 H2].
  - done.
  - by eapply chain_closed_timestamp.
  - by eapply chain_closed_timestamp.
  - rewrite (station_cleared_timestamp _ _ _ H2).
    by eapply chain_closed_timestamp.
Qed.

(** Every run of [createTracking], seen from its end: the checks lead from
    [db] to some [db2], and the call either stops there, rejected, or adds
    the returned row to [db2] under a fresh id. *)
Lemma createTracking_ends data db :
  exists out2 db2,
    checks data db out2 db2
    /\ ((exists e, createTracking data db = (Rejected e, db2))
        \/ (out2 = Resolved tt
            /\ in_unique_open_index (TrackingData.puesto_id data)
                 (scanned_window data) db2 = false
            /\ createTracking data db =
               (Resolved (mkTrackingRecord (nextval (trackings db2))
                            (opened_row data (current_timestamp db))),
                write (nextval (trackings db2))
                  (opened_row data (current_timestamp db)) db2))).
Proof.
  pose proof (createTracking_paths data db) as Hs.
  destruct (createTracking data db) as [out db'] eqn:E. simpl in Hs.
  inversion Hs as [e db1 Hc | db2 Hc Hidx | db2 Hc Hidx Hout Hdb]; subst.
  - exists (Rejected e), db'. split; [done |]. left. by exists e.
  - exists (Resolved tt), db'. split; [done |]. left. by eexists.
  - exists (Resolved tt), db2. split; [done |]. right.
    rewrite (scan_insert_created _ _ Hidx). cbn [fst snd].
    by rewrite (checks_timestamp _ _ _ _ Hc).
Qed.

Lemma checks_keeps_keys data db out db2 k :
  checks data db out db2 ->
  trackings db2 !! k = None <-> trackings db !! k = None.
Proof.
  intros Hc. destruct (checks_closed_in _ _ _ _ Hc) as (db1 & H1 & H2).
  assert (forall cond t reason d d',
            closed_in cond t reason d d' ->
            trackings d' !! k = None <-> trackings d !! k = None) as Hkeys.
  { intros cond t reason d d' [|p Hp _ _]; [done |].
    rewrite lookup_write. destruct (decide (id p = k)) as [<-|]; [| done].
    by rewrite Hp. }
  rewrite (Hkeys _ _ _ _ _ H2). by apply (Hkeys _ _ _ _ _ H1).
Qed.

Lemma checks_rows_forward data db out db2 k r :
  checks data db out db2 ->
  trackings db !! k = Some r ->
  exists r', trackings db2 !! k = Some r'
             /\ (r' = r \/ closed_by_scan data (current_timestamp db) r r').
Proof.
  intros Hc Hk.
  destruct (trackings db2 !! k) as [r'|] eqn:Hk2.
  - exists r'. split; [done |].
    destruct (checks_rows _ _ _ _ _ _ Hc Hk2) as [Hsame | (r0 & Hk0 & Hcl)].
    + left. congruence.
    + right. congruence.
  - apply (checks_keeps_keys _ _ _ _ _ Hc) in Hk2. congruence.
Qed.

Lemma createTracking_rows_forward data db k r :
  trackings db !! k = Some r ->
  exists r', trackings (createTracking data db).2 !! k = Some r'
             /\ (r' = r \/ closed_by_scan data (current_timestamp db) r r').
Proof.
  intros Hk.
  destruct (createTracking_ends data db)
    as (out2 & db2 & Hc & [[e ->] | (-> & Hidx & ->)]); cbn [snd].
  - by eapply checks_rows_forward.
  - destruct (checks_rows_forward _ _ _ _ _ _ Hc Hk) as (r' & Hk2 & Hr').
    exists r'. split; [| done].
    rewrite lookup_write_ne; [done |].
    intros Heq. apply nextval_above in Hk2. lia.
Qed.

Lemma createTracking_rows_backward data db k r' :
  trackings (createTracking data db).2 !! k = Some r' ->
  (exists r, trackings db !! k = Some r
             /\ (r' = r \/ closed_by_scan data (current_timestamp db) r r'))
  \/ (trackings db !! k = None
      /\ r' = opened_row data (current_timestamp db)
      /\ (createTracking data db).1 = Resolved (mkTrackingRecord k r')).
Proof.
  destruct (createTracking_ends data db)
    as (out2 & db2 & Hc & [[e ->] | (-> & Hidx & ->)]); cbn [fst snd];
    intros Hk.
  - left. destruct (checks_rows _ _ _ _ _ _ Hc Hk) as [H | (r & H & Hcl)].
    + exists r'. by split; [| left].
    + exists r. by split; [| right].
  - rewrite lookup_write in Hk.
    destruct (decide (nextval (trackings db2) = k)) as [<- | _].
    + injection Hk as <-. right. split; [| done].
      apply (checks_keeps_keys _ _ _ _ _ Hc). apply nextval_fresh.
    + left. destruct (checks_rows _ _ _ _ _ _ Hc Hk) as [H | (r & H & Hcl)].
      * exists r'. by split; [| left].
      * exists r. by split; [| right].
Qed.

Lemma createTracking_timestamp data db :
  current_timestamp (createTracking data db).2 = current_timestamp db.
Proof.
  destruct (createTracking_ends data db)
    as (out2 & db2 & Hc & [[e ->] | (-> & Hidx & ->)]); cbn [snd].
  - by eapply checks_timestamp.
  - unfold write. simpl. by eapply checks_timestamp.
Qed.

(** What one call of [createTracking] can do to the table, whatever its
    outcome and whatever the table held: no interval is removed; an interval
    that was there is either exactly as before or was open, started no later
    than the scan and is now closed at the scan's time with reason
    CHAIN_TRANSITION or RESCANNED_SAME_WINDOW, all its other columns kept;
    the only interval that can appear is the one the call returns. *)
Theorem createTracking_row_history data db :
  (forall k r,
     trackings db !! k = Some r ->
     exists r', trackings (createTracking data db).2 !! k = Some r'
                /\ (r' = r \/ closed_by_scan data (current_timestamp db) r r'))
  /\ (forall k r',
        trackings db !! k = None ->
        trackings (createTracking data db).2 !! k = Some r' ->
        (createTracking data db).1 = Resolved (mkTrackingRecord k r')
        /\ r' = opened_row data (current_timestamp db)).
Proof.
  split.
  - intros k r. apply createTracking_rows_forward.
  - intros k r' Hnone Hk.
    destruct (createTracking_rows_backward _ _ _ _ Hk)
      as [(r & Hr & _) | (_ & -> & ->)]; [congruence | done].
Qed.

(** ** Row constraints *)

Lemma closeTracking_rows trackingId fechaFinal reason db k r' :
  trackings (closeTracking trackingId fechaFinal reason db).2 !! k = Some r' ->
  trackings db !! k = Some r'
  \/ (k = trackingId
      /\ exists r, trackings db !! k = Some r
                   /\ fecha_inicio r <= fechaFinal
                   /\ r' = closed_row fechaFinal (default MANUAL_CLOSE reason)
                             (current_timestamp db) r).
Proof.
  unfold closeTracking, update_close.
  destruct (trackings db !! trackingId) as [r|] eqn:E; [| by left].
  destruct (fecha_inicio r <=? fechaFinal) eqn:Hle; cbn [snd]; [| by left].
  rewrite lookup_write. destruct (decide (trackingId = k)) as [<- | _];
    [| by left].
  intros [= <-]. right. split; [done |]. exists r.
  split; [done |]. split; [lia | done].
Qed.

Lemma closed_row_valid fechaFinal reason now r :
  fecha_inicio r <= fechaFinal ->
  valid_date_range (closed_row fechaFinal reason now r)
  /\ closure_has_reason (closed_row fechaFinal reason now r).
Proof.
  intros Hle. split.
  - intros e. simpl. intros [= <-]. done.
  - unfold closure_has_reason. simpl. split; discriminate.
Qed.

(** The two row constraints of the data model are kept by the writing
    operations of the service: if every stored interval satisfies
    [fecha_inicio <= fecha_final] when closed (I3, [chk_valid_date_range])
    and has a closure reason exactly when it has an end time (I4), the same
    holds after any call of [createTracking] and of [closeTracking],
    whatever the call's outcome. *)
Theorem service_keeps_row_constraints db :
  (forall k r, trackings db !! k = Some r ->
               valid_date_range r /\ closure_has_reason r) ->
  (forall data k r,
     trackings (createTracking data db).2 !! k = Some r ->
     valid_date_range r /\ closure_has_reason r)
  /\ (forall trackingId fechaFinal reason k r,
        trackings (closeTracking trackingId fechaFinal reason db).2 !! k
        = Some r ->
        valid_date_range r /\ closure_has_reason r).
Proof.
  intros Hok. split.
  - intros data k r' Hk.
    destruct (createTracking_rows_backward _ _ _ _ Hk)
      as [(r & Hr & [-> | (_ & Hle & reason & _ & ->)]) | (_ & -> & _)].
    + by eapply Hok.
    + by apply closed_row_valid.
    + split; [intros e; discriminate | done].
  - intros trackingId fechaFinal reason k r' Hk.
    destruct (closeTracking_rows _ _ _ _ _ _ Hk)
      as [Hr | (_ & r & Hr & Hle & ->)].
    + by eapply Hok.
    + by apply closed_row_valid.
Qed.

Lemma after_P1_rows k r :
  trackings after_P1 !! k = Some r -> k = 1 /\ r = row created_P1.
Proof.
  unfold after_P1. rewrite lookup_write.
  destruct (decide (1 = k)) as [<- | _]; [by intros [= <-] |].
  simpl. by rewrite lookup_empty.
Qed.

Lemma service_keeps_row_constraints_witness :
  valid_date_range (closed_row 37800 CHAIN_TRANSITION 40000 created_P1)
  /\ closure_has_reason (closed_row 37800 CHAIN_TRANSITION 40000 created_P1).
Proof.
  assert (forall k r, trackings after_P1 !! k = Some r ->
                      valid_date_range r /\ closure_has_reason r) as Hok.
  { intros k r [_ ->]%after_P1_rows.
    split; [intros e; discriminate | done]. }
  apply (proj1 (service_keeps_row_constraints after_P1 Hok)
           scan_P2_at_10_30 1).
  rewrite scan_P2_run. reflexivity.
Defined.

(** ** Invariants on the open intervals *)

Lemma pairwise_open_subset same (t t' : gmap Z Row) :
  pairwise_open same t ->
  (forall k r, t' !! k = Some r -> is_open r = true -> t !! k = Some r) ->
  pairwise_open same t'.
Proof.
  intros Hp Hsub k1 k2 r1 r2 H1 H2 Ho1 Ho2 Hsame.
  eapply Hp; [by apply Hsub | by apply Hsub | done | done | done].
Qed.

Lemma pairwise_open_write same k r db :
  pairwise_open same (trackings db) ->
  trackings db !! k = None ->
  (forall k' r', trackings db !! k' = Some r' -> is_open r' = true ->
                 ~ same r' r /\ ~ same r r') ->
  pairwise_open same (trackings (write k r db)).
Proof.
  intros Hp Hfresh Hnew k1 k2 r1 r2 H1 H2 Ho1 Ho2 Hsame.
  rewrite lookup_write in H1, H2.
  destruct (decide (k = k1)) as [<- | Hn1], (decide (k = k2)) as [<- | Hn2].
  - done.
  - injection H1 as <-. by destruct (Hnew _ _ H2 Ho2) as [_ []].
  - injection H2 as <-. by destruct (Hnew _ _ H1 Ho1) as [[] _].
  - by eapply Hp.
Qed.

Lemma pairwise_open_empty same : pairwise_open same (∅ : gmap Z Row).
Proof. intros k1 k2 r1 r2 H1. by rewrite lookup_empty in H1. Qed.

Lemma checks_open_rows data db out db2 k r :
  checks data db out db2 ->
  trackings db2 !! k = Some r -> is_open r = true ->
  trackings db !! k = Some r.
Proof.
  intros Hc Hk Ho.
  destruct (checks_rows _ _ _ _ _ _ Hc Hk) as [H | (r0 & _ & Hcl)]; [done |].
  apply closed_by_scan_not_open in Hcl. congruence.
Qed.

Lemma closeTracking_open_rows trackingId fechaFinal reason db k r :
  trackings (closeTracking trackingId fechaFinal reason db).2 !! k = Some r ->
  is_open r = true ->
  trackings db !! k = Some r.
Proof.
  intros Hk Ho.
  destruct (closeTracking_rows _ _ _ _ _ _ Hk) as [H | (_ & r0 & _ & _ & ->)];
    done.
Qed.

Lemma on_error_keeps_db {A : Type} (e : JsError) (db : Db) :
  (on_error (A := A) e db).2 = db.
Proof. unfold on_error. by destruct (bool_decide _). Qed.

(** The insert keeps the unique index: it is refused when the key is taken. *)
Lemma scan_insert_keeps_unique_index data db :
  unique_open_index (trackings db) ->
  unique_open_index (trackings (scan_insert data db).2).
Proof.
  intros Hidx.
  destruct (in_unique_open_index (TrackingData.puesto_id data)
              (scanned_window data) db) eqn:E.
  - unfold scan_insert, insert_tracking. unfold scanned_window in E.
    by rewrite E.
  - rewrite (scan_insert_created _ _ E). cbn [snd].
    apply pairwise_open_write; [done | apply nextval_fresh |].
    intros k' r' Hk' Ho'.
    assert (~ (puesto_id r' = TrackingData.puesto_id data
               /\ window r' = scanned_window data)) as Hne.
    { intros [Hp Hw].
      assert (in_unique_open_index (TrackingData.puesto_id data)
                (scanned_window data) db = true) as Ht
        by (apply in_unique_open_index_true; by exists k', r').
      congruence. }
    split; intros [Hp Hw]; apply Hne.
    + split; [exact Hp | exact Hw].
    + split; [exact (eq_sym Hp) | exact (eq_sym Hw)].
Qed.

Lemma createTracking_raced_db other data db :
  (createTracking_raced other data db).2 =
  match scan_checks data db with
  | (Resolved _, db2) => (scan_insert data (other db2)).2
  | (Rejected _, db1) => db1
  end.
Proof.
  unfold createTracking_raced, try_catch. rewrite !Async_bind_run.
  destruct (scan_checks data db) as [[[]|e] db2].
  - rewrite Async_bind_run.
    destruct (scan_insert data (other db2)) as [[r|e] db3]; [done |].
    apply on_error_keeps_db.
  - apply on_error_keeps_db.
Qed.

(** The storage backstop.  If the table satisfies
    [idx_unique_open_tracking] (at most one open interval per workstation
    and window), it still does after [closeTracking], after [createTracking],
    and after a [createTracking] that races with another writer whose
    commits respect the index, whatever the outcome of the call. *)
Theorem unique_index_is_kept other data db :
  (forall d, unique_open_index (trackings d) ->
             unique_open_index (trackings (other d))) ->
  unique_open_index (trackings db) ->
  unique_open_index (trackings (createTracking_raced other data db).2)
  /\ unique_open_index (trackings (createTracking data db).2)
  /\ forall trackingId fechaFinal reason,
       unique_open_index
         (trackings (closeTracking trackingId fechaFinal reason db).2).
Proof.
  intros Hother Hidx.
  assert (forall other',
            (forall d, unique_open_index (trackings d) ->
                       unique_open_index (trackings (other' d))) ->
            unique_open_index
              (trackings (createTracking_raced other' data db).2)) as Hraced.
  { intros other' Hother'. rewrite createTracking_raced_db.
    pose proof (scan_checks_paths data db) as Hc.
    destruct (scan_checks data db) as [out db2]. simpl in Hc.
    assert (unique_open_index (trackings db2)) as Hidx2.
    { eapply pairwise_open_subset; [exact Hidx |].
      intros k r. by eapply checks_open_rows. }
    destruct out as [[]|e]; [| done].
    apply scan_insert_keeps_unique_index. by apply Hother'. }
  split; [by apply Hraced |]. split.
  - rewrite <- createTracking_raced_alone. by apply Hraced.
  - intros trackingId fechaFinal reason.
    eapply pairwise_open_subset; [exact Hidx |].
    intros k r. by eapply closeTracking_open_rows.
Qed.

Lemma unique_index_is_kept_witness :
  unique_open_index
    (trackings
       (createTracking_raced concurrent_scan scan_P1_at_10_00
          (empty_db 40000)).2).
Proof.
  assert (forall d, unique_open_index (trackings d) ->
                    unique_open_index (trackings (concurrent_scan d))) as Hc.
  { intros d Hd.
    exact (proj1 (proj2 (unique_index_is_kept (fun d' => d') scan_P1_at_10_00
                           d (fun _ H => H) Hd))). }
  exact (proj1 (unique_index_is_kept concurrent_scan scan_P1_at_10_00
                  (empty_db 40000) Hc (pairwise_open_empty _))).
Defined.

(** ** Why a scan is rejected *)




(** ** One open interval per workstation, one per window *)

Lemma station_cleared_free data db1 db2 k r :
  exclusive_stations (trackings db1) ->
  station_cleared data db1 db2 ->
  trackings db2 !! k = Some r -> is_open r = true ->
  puesto_id r <> TrackingData.puesto_id data.
Proof.
  intros HI1 [Hfree | o (Hin & Hc & _) _ _] Hk Ho Hp.
  - simpl in Hfree. specialize (Hfree _ _ Hk).
    assert (open_in_puesto (TrackingData.puesto_id data)
              (mkTrackingRecord k r) = true) as Ht
      by (by apply open_in_puesto_true).
    congruence.
  - rewrite lookup_write in Hk.
    destruct (decide (id o = k)) as [<- | Hne].
    { injection Hk as <-. done. }
    apply Hne. apply open_in_puesto_true in Hc as [Hpo Hoo].
    eapply HI1; [exact Hin | exact Hk | done | done | congruence].
Qed.

Lemma checks_clear_window data db db2 k r :
  single_location (trackings db) ->
  checks data db (Resolved tt) db2 ->
  trackings db2 !! k = Some r -> is_open r = true ->
  window r <> scanned_window data.
Proof.
  intros HI2 Hc Hk Ho Hw.
  destruct (checks_resolved _ _ _ Hc) as (db1 & H1 & H2).
  pose proof (closed_in_open_before _ _ _ _ _ _ _
                (station_cleared_closed_in _ _ _ H2) Hk Ho) as Hk1.
  pose proof (closed_in_open_before _ _ _ _ _ _ _
                (chain_closed_closed_in _ _ _ H1) Hk1 Ho) as Hk0.
  destruct (decide (puesto_id r = TrackingData.puesto_id data)) as [Hp | Hp].
  - destruct H2 as [Hfree | o (Hin & Hco & _) Hsw _].
    + simpl in Hfree. specialize (Hfree _ _ Hk1).
      assert (open_in_puesto (TrackingData.puesto_id data)
                (mkTrackingRecord k r) = true) as Ht
        by (by apply open_in_puesto_true).
      congruence.
    + apply open_in_puesto_true in Hco as [_ Hoo].
      apply same_window_true in Hsw.
      pose proof (closed_in_open_before _ _ _ _ _ _ _
                    (chain_closed_closed_in _ _ _ H1) Hin Hoo) as Hin0.
      assert (k = id o) as ->
        by (eapply HI2; [exact Hk0 | exact Hin0 | done | done | congruence]).
      rewrite lookup_write_eq in Hk. injection Hk as <-. done.
  - assert (open_in_other_puesto data (mkTrackingRecord k r) = true) as Hc0
      by (by apply open_in_other_puesto_true).
    destruct H1 as [Hnone | p (Hin & Hcp & _) _].
    + simpl in Hnone. rewrite (Hnone _ _ Hk0) in Hc0. done.
    + apply open_in_other_puesto_true in Hcp as (Hwp & _ & Hop).
      assert (k = id p) as ->
        by (eapply HI2; [exact Hk0 | exact Hin | done | done | congruence]).
      rewrite lookup_write_eq in Hk1. injection Hk1 as <-. done.
Qed.

Lemma createTracking_exclusive_stations data db :
  exclusive_stations (trackings db) ->
  exclusive_stations (trackings (createTracking data db).2).
Proof.
  intros HI1.
  destruct (createTracking_ends data db)
    as (out2 & db2 & Hc & [[e ->] | (-> & Hidx & ->)]); cbn [snd].
  - eapply pairwise_open_subset; [exact HI1 |].
    intros k r. by eapply checks_open_rows.
  - destruct (checks_resolved _ _ _ Hc) as (db1 & H1 & H2).
    assert (exclusive_stations (trackings db1)) as HI1'.
    { eapply pairwise_open_subset; [exact HI1 |].
      intros k r. eapply closed_in_open_before.
      by eapply chain_closed_closed_in. }
    apply pairwise_open_write; [| apply nextval_fresh |].
    + eapply pairwise_open_subset; [exact HI1 |].
      intros k r. by eapply checks_open_rows.
    + intros k' r' Hk' Ho'.
      pose proof (station_cleared_free _ _ _ _ _ HI1' H2 Hk' Ho') as Hne.
      split; intros Hp; apply Hne; [exact Hp | exact (eq_sym Hp)].
Qed.

Lemma createTracking_single_location data db :
  single_location (trackings db) ->
  single_location (trackings (createTracking data db).2).
Proof.
  intros HI2.
  change (pairwise_open (fun r1 r2 => window r1 = window r2)
            (trackings (createTracking data db).2)).
  destruct (createTracking_ends data db)
    as (out2 & db2 & Hc & [[e ->] | (-> & Hidx & ->)]); cbn [snd].
  - eapply pairwise_open_subset; [exact HI2 |].
    intros k r. by eapply checks_open_rows.
  - apply pairwise_open_write; [| apply nextval_fresh |].
    + eapply pairwise_open_subset; [exact HI2 |].
      intros k r. by eapply checks_open_rows.
    + intros k' r' Hk' Ho'.
      pose proof (checks_clear_window _ _ _ _ _ HI2 Hc Hk' Ho') as Hne.
      split; intros Hw; apply Hne; [exact Hw | exact (eq_sym Hw)].
Qed.





(** What a successful scan establishes on a table that satisfied I1 and I2:
    the returned interval is stored, open, at the scanned workstation and of
    the scanned window, and it is the only open interval at that workstation
    and the only open interval of that window. *)
Theorem createTracking_sole_open_interval data db r db' :
  exclusive_stations (trackings db) ->
  single_location (trackings db) ->
  createTracking data db = (Resolved r, db') ->
  trackings db' !! id r = Some (row r)
  /\ is_open r = true
  /\ puesto_id r = TrackingData.puesto_id data
  /\ window r = scanned_window data
  /\ forall k r0,
       trackings db' !! k = Some r0 -> is_open r0 = true ->
       puesto_id r0 = TrackingData.puesto_id data
       \/ window r0 = scanned_window data ->
       k = id r.
Proof.
  intros HI1 HI2 Hrun.
  pose proof (createTracking_exclusive_stations data db HI1) as HI1'.
  pose proof (createTracking_single_location data db HI2) as HI2'.
  rewrite Hrun in HI1', HI2'. cbn [snd] in HI1', HI2'.
  destruct (created_leads _ _ _ _ Hrun) as (Hin & Hrow & _ & _).
  assert (is_open r = true) as Hopen by (by rewrite Hrow).
  assert (puesto_id r = TrackingData.puesto_id data) as Hp by (by rewrite Hrow).
  assert (window r = scanned_window data) as Hw by (by rewrite Hrow).
  repeat split; try done.
  intros k r0 Hk Ho [Hp0 | Hw0].
  - eapply HI1'; [exact Hk | exact Hin | done | done | congruence].
  - eapply HI2'; [exact Hk | exact Hin | done | done | congruence].
Qed.

Lemma createTracking_sole_open_interval_witness :
  forall_open_is after_P2 2.
Proof.
  unfold forall_open_is.
  destruct (createTracking_sole_open_interval scan_P2_at_10_30 after_P1
              created_P2 after_P2) as (_ & _ & _ & _ & Honly).
  - intros k1 k2 r1 r2 [-> _]%after_P1_rows [-> _]%after_P1_rows. done.
  - intros k1 k2 r1 r2 [-> _]%after_P1_rows [-> _]%after_P1_rows. done.
  - exact scan_P2_run.
  - intros k r0 Hk Ho Hw. apply (Honly k r0 Hk Ho). right. exact Hw.
Defined.

(** ** Reading back, closing again, retrying *)

(** Insert then look up: the interval a successful [createTracking] returns
    is exactly what [getTracking] finds under its id afterwards, and that id
    was unused before the call. *)
Theorem getTracking_reads_created data db r db' :
  createTracking data db = (Resolved r, db') ->
  getTracking (id r) db' = (Resolved (Some r), db')
  /\ getTracking (id r) db = (Resolved None, db).
Proof.
  intros Hrun.
  destruct (createTracking_resolved _ _ _ _ Hrun) as (db2 & Hc & _ & Hr & ->).
  unfold getTracking, select_by_id. split.
  - rewrite lookup_write_eq. simpl. by rewrite record_eta.
  - assert (trackings db2 !! id r = None) as Hfresh
      by (rewrite Hr; apply nextval_fresh).
    apply (checks_keeps_keys _ _ _ _ _ Hc) in Hfresh. by rewrite Hfresh.
Qed.

Lemma getTracking_reads_created_witness :
  getTracking 2 after_P2 = (Resolved (Some created_P2), after_P2)
  /\ getTracking 2 after_P1 = (Resolved None, after_P1).
Proof.
  exact (getTracking_reads_created scan_P2_at_10_30 after_P1 created_P2
           after_P2 scan_P2_run).
Defined.








(** ** Scans in time order never overlap *)

Lemma no_stored_overlap_exclusive (t : gmap Z Row) :
  no_stored_overlap t -> exclusive_stations t.
Proof.
  intros Hno k1 k2 r1 r2 H1 H2 Ho1 Ho2 Hp.
  destruct (decide (k1 = k2)) as [| Hne]; [done |]. exfalso.
  unfold is_open in Ho1, Ho2.
  destruct (Hno _ _ _ _ H1 H2 Hne Hp) as [(e & He & _) | (e & He & _)].
  - by rewrite He in Ho1.
  - by rewrite He in Ho2.
Qed.

Lemma disjoint_rows_sym r1 r2 : disjoint_rows r1 r2 -> disjoint_rows r2 r1.
Proof. intros [H | H]; [by right | by left]. Qed.

(** Closing open intervals at a scan's time keeps two disjoint intervals
    disjoint. *)
Lemma disjoint_rows_closed data now r1 r2 r1' r2' :
  disjoint_rows r1 r2 ->
  r1' = r1 \/ closed_by_scan data now r1 r1' ->
  r2' = r2 \/ closed_by_scan data now r2 r2' ->
  disjoint_rows r1' r2'.
Proof.
  assert (forall a b a' b',
            (exists e, fecha_final a = Some e /\ e <= fecha_inicio b) ->
            a' = a \/ closed_by_scan data now a a' ->
            b' = b \/ closed_by_scan data now b b' ->
            exists e, fecha_final a' = Some e /\ e <= fecha_inicio b') as Hone.
  { intros a b a' b' (e & He & Hle) Ha Hb.
    assert (a' = a) as ->.
    { destruct Ha as [| (Ho & _)]; [done |].
      unfold is_open in Ho. by rewrite He in Ho. }
    exists e. split; [done |].
    destruct Hb as [-> | (_ & _ & reason & _ & ->)]; done. }
  intros [H | H] H1 H2; [left | right]; by eapply Hone.
Qed.

Lemma createTracking_keeps_apart data db T :
  no_stored_overlap (trackings db) ->
  not_after T (trackings db) ->
  T <= TrackingData.fecha_inicio data ->
  no_stored_overlap (trackings (createTracking data db).2)
  /\ not_after (TrackingData.fecha_inicio data)
       (trackings (createTracking data db).2).
Proof.
  intros Hno Hpast HT.
  destruct (createTracking_ends data db)
    as (out2 & db2 & Hc & Hend).
  (* the table after the checks *)
  assert (no_stored_overlap (trackings db2)) as Hno2.
  { intros k1 k2 r1' r2' H1 H2 Hne Hp.
    destruct (checks_rows _ _ _ _ _ _ Hc H1) as [E1 | (r1 & E1 & C1)];
      destruct (checks_rows _ _ _ _ _ _ Hc H2) as [E2 | (r2 & E2 & C2)].
    - by eapply Hno.
    - eapply disjoint_rows_closed; [| by left | right; exact C2].
      eapply Hno; [exact E1 | exact E2 | done |].
      destruct C2 as (_ & _ & reason & _ & ->). exact Hp.
    - eapply disjoint_rows_closed; [| right; exact C1 | by left].
      eapply Hno; [exact E1 | exact E2 | done |].
      destruct C1 as (_ & _ & reason & _ & ->). exact Hp.
    - eapply disjoint_rows_closed; [| right; exact C1 | right; exact C2].
      eapply Hno; [exact E1 | exact E2 | done |].
      destruct C1 as (_ & _ & reason1 & _ & ->).
      destruct C2 as (_ & _ & reason2 & _ & ->). exact Hp. }
  assert (not_after (TrackingData.fecha_inicio data) (trackings db2))
    as Hpast2.
  { intros k r' Hk.
    destruct (checks_rows _ _ _ _ _ _ Hc Hk)
      as [E | (r & E & _ & Hle & reason & _ & ->)].
    - destruct (Hpast _ _ E) as [Hs He]. split; [lia |].
      intros e Hfin. specialize (He e Hfin). lia.
    - split; [exact Hle |]. simpl. intros e [= <-]. lia. }
  destruct Hend as [[e ->] | (-> & Hidx & ->)]; cbn [snd]; [done |].
  destruct (checks_resolved _ _ _ Hc) as (db1 & H1 & H2).
  assert (exclusive_stations (trackings db1)) as HI1.
  { eapply pairwise_open_subset;
      [exact (no_stored_overlap_exclusive _ Hno) |].
    intros k r. eapply closed_in_open_before.
    by eapply chain_closed_closed_in. }
  (* every interval at the scanned workstation is closed, by the scan's time *)
  assert (forall k r, trackings db2 !! k = Some r ->
            puesto_id r = TrackingData.puesto_id data ->
            exists e, fecha_final r = Some e
                      /\ e <= TrackingData.fecha_inicio data) as Hdone.
  { intros k r Hk Hp.
    destruct (fecha_final r) as [e|] eqn:Hfin.
    - exists e. split; [done |]. by apply (Hpast2 _ _ Hk).
    - exfalso.
      apply (station_cleared_free _ _ _ _ _ HI1 H2 Hk); [| done].
      unfold is_open. by rewrite Hfin. }
  split.
  - intros k1 k2 r1 r2 E1 E2 Hne Hp.
    rewrite lookup_write in E1, E2.
    destruct (decide (nextval (trackings db2) = k1)) as [<- | Hn1],
             (decide (nextval (trackings db2) = k2)) as [<- | Hn2].
    + done.
    + injection E1 as <-. right. eapply Hdone; [exact E2 | by rewrite <- Hp].
    + injection E2 as <-. left. by eapply Hdone.
    + by eapply Hno2.
  - intros k r Hk. rewrite lookup_write in Hk.
    destruct (decide (nextval (trackings db2) = k)) as [<- | _].
    + injection Hk as <-. simpl. split; [lia | discriminate].
    + by apply (Hpast2 _ _ Hk).
Qed.

Lemma record_scans_keeps_apart scans :
  forall T db,
    no_stored_overlap (trackings db) ->
    not_after T (trackings db) ->
    nondecreasing_from T scans ->
    no_stored_overlap (trackings (record_scans scans db)).
Proof.
  induction scans as [| data rest IH]; intros T db Hno Hpast Hord; [done |].
  destruct Hord as [HT Hrest].
  destruct (createTracking_keeps_apart data db T Hno Hpast HT) as [Hno' Hpast'].
  simpl. by eapply IH.
Qed.

Lemma record_scans_timestamp scans :
  forall db, current_timestamp (record_scans scans db) = current_timestamp db.
Proof.
  induction scans as [| data rest IH]; intros db; [done |].
  simpl. rewrite IH. apply createTracking_timestamp.
Qed.

(** A table without stored overlap gives the overlap query nothing to
    report, whatever the clock says. *)
Lemma no_stored_overlap_query db :
  no_stored_overlap (trackings db) -> overlaps_query db = [].
Proof.
  intros Hno. destruct (overlaps_query db) as [| o l] eqn:E; [done |].
  exfalso.
  assert (o ∈ overlaps_query db) as Hin by (rewrite E; left).
  apply elem_of_overlaps_query
    in Hin as (k1 & r1 & k2 & r2 & H1 & H2 & (Hp & Hlt & Ha & Hb) & _).
  unfold end_or_now in Ha, Hb.
  destruct (Hno k1 k2 r1 r2 H1 H2 ltac:(lia) Hp)
    as [(e & He & Hle) | (e & He & Hle)].
  - rewrite He in Hb. simpl in Hb. lia.
  - rewrite He in Ha. simpl in Ha. lia.
Qed.

(** The purpose of the service.  Start from a table without stored overlap
    in which nothing is dated after [T] (the empty table, for one), and let
    scans dated [T] or later arrive in time order, each handled by
    [createTracking], rejected ones included.  Then distinct intervals at
    one workstation never overlap, no workstation has two open intervals,
    and [findOverlaps] reports nothing. *)
Theorem scans_in_time_order_never_overlap scans T db :
  no_stored_overlap (trackings db) ->
  not_after T (trackings db) ->
  nondecreasing_from T scans ->
  no_stored_overlap (trackings (record_scans scans db))
  /\ exclusive_stations (trackings (record_scans scans db))
  /\ findOverlaps (record_scans scans db)
     = (Resolved [], record_scans scans db).
Proof.
  intros Hno Hpast Hord.
  pose proof (record_scans_keeps_apart scans T db Hno Hpast Hord) as Hno'.
  split; [done |]. split; [by apply no_stored_overlap_exclusive |].
  unfold findOverlaps. by rewrite (no_stored_overlap_query _ Hno').
Qed.

Lemma scans_in_time_order_never_overlap_witness :
  findOverlaps
    (record_scans
       [scan_P1_at_10_00; scan_A_at_10_00; rescan_P1_at_10_30;
        scan_P2_at_10_30; rescan_P1]
       (empty_db 40000))
  = (Resolved [],
     record_scans
       [scan_P1_at_10_00; scan_A_at_10_00; rescan_P1_at_10_30;
        scan_P2_at_10_30; rescan_P1]
       (empty_db 40000)).
Proof.
  apply (scans_in_time_order_never_overlap _ 0 (empty_db 40000)).
  - intros k1 k2 r1 r2 H1. simpl in H1. by rewrite lookup_empty in H1.
  - intros k r H1. simpl in H1. by rewrite lookup_empty in H1.
  - simpl. lia.
Defined.

(** ** Shape of the overlap report *)

Lemma by_overlap_desc_total : Total by_overlap_desc.
Proof. intros a b. unfold by_overlap_desc. lia. Qed.

Lemma by_overlap_desc_trans : Transitive by_overlap_desc.
Proof. intros a b c. unfold by_overlap_desc. lia. Qed.

Lemma tracking_periods_NoDup db : NoDup (tracking_periods db).
Proof.
  apply (NoDup_fmap_1 TrackingPeriod.id).
  unfold tracking_periods, rows. rewrite <- !list_fmap_compose.
  replace (TrackingPeriod.id ∘ tracking_period (current_timestamp db)
           ∘ (fun kr : Z * Row => mkTrackingRecord kr.1 kr.2))
    with (@fst Z Row) by done.
  apply NoDup_fst_map_to_list.
Qed.

Lemma overlap_row_inj_1 t1 t2 t1' t2' :
  overlap_row t1 t2 = overlap_row t1' t2' -> t1 = t1'.
Proof.
  destruct t1, t1'. unfold overlap_row. simpl.
  by intros [= -> -> -> -> -> -> ->].
Qed.

Lemma overlap_row_inj_2 t1 t2 t2' :
  join_on t1 t2 = true -> join_on t1 t2' = true ->
  overlap_row t1 t2 = overlap_row t1 t2' -> t2 = t2'.
Proof.
  unfold join_on. rewrite !andb_true_iff, !Z.eqb_eq.
  intros [Hp _] [Hp' _]. destruct t2, t2'. unfold overlap_row. simpl in *.
  intros [= -> -> -> -> -> ->]. by rewrite <- Hp, <- Hp'.
Qed.

Lemma overlaps_join_NoDup db :
  NoDup (t1 ← tracking_periods db;
         t2 ← tracking_periods db;
         if join_on t1 t2 && overlap_where t1 t2
         then [overlap_row t1 t2] else []).
Proof.
  apply NoDup_bind; [| | apply tracking_periods_NoDup].
  - intros t1 t1' o _ _ (t2 & Ho & _)%list_elem_of_bind
      (t2' & Ho' & _)%list_elem_of_bind.
    destruct (join_on t1 t2 && overlap_where t1 t2);
      [| by apply elem_of_nil in Ho].
    destruct (join_on t1' t2' && overlap_where t1' t2');
      [| by apply elem_of_nil in Ho'].
    apply list_elem_of_singleton in Ho, Ho'. subst o.
    by eapply overlap_row_inj_1.
  - intros t1 _. apply NoDup_bind; [| | apply tracking_periods_NoDup].
    + intros t2 t2' o _ _ Ho Ho'.
      destruct (join_on t1 t2 && overlap_where t1 t2) eqn:E;
        [| by apply elem_of_nil in Ho].
      destruct (join_on t1 t2' && overlap_where t1 t2') eqn:E';
        [| by apply elem_of_nil in Ho'].
      apply list_elem_of_singleton in Ho, Ho'. subst o.
      apply andb_true_iff in E as [E _], E' as [E' _].
      by eapply overlap_row_inj_2.
    + intros t2 _. destruct (join_on t1 t2 && overlap_where t1 t2);
        [apply NoDup_singleton | apply NoDup_nil_2].
Qed.

(** The report of [findOverlaps] is ordered by decreasing [overlap_seconds]
    (every row's overlap is at least that of every later row), names the
    interval with the lower id first, and lists no pair of interval ids
    twice. *)
Theorem findOverlaps_report_shape db :
  StronglySorted by_overlap_desc (overlaps_query db)
  /\ (forall o, o ∈ overlaps_query db ->
                Overlap.tracking1_id o < Overlap.tracking2_id o)
  /\ NoDup ((fun o => (Overlap.tracking1_id o, Overlap.tracking2_id o))
              <$> overlaps_query db).
Proof.
  split.
  { apply StronglySorted_merge_sort;
      [apply by_overlap_desc_trans | apply by_overlap_desc_total]. }
  split.
  - intros o (k1 & r1 & k2 & r2 & _ & _ & (_ & Hlt & _) & ->)
      %elem_of_overlaps_query. done.
  - apply NoDup_fmap_2_strong.
    + intros o o'
        (k1 & r1 & k2 & r2 & H1 & H2 & _ & ->)%elem_of_overlaps_query
        (k1' & r1' & k2' & r2' & H1' & H2' & _ & ->)%elem_of_overlaps_query.
      unfold reported_row, overlap_row. simpl. intros [= <- <-].
      by replace r1' with r1 by congruence; replace r2' with r2 by congruence.
    + unfold overlaps_query. rewrite merge_sort_Permutation.
      apply overlaps_join_NoDup.
Qed.

(** [overlap_seconds] is never negative for intervals that do not end before
    they start (an open interval ending now), and it is positive when both
    last some time. *)
Theorem overlap_seconds_sign db k1 r1 k2 r2 :
  reported_row (current_timestamp db) k1 r1 k2 r2 ∈ overlaps_query db ->
  trackings db !! k1 = Some r1 ->
  trackings db !! k2 = Some r2 ->
  (fecha_inicio r1 <= end_or_now (current_timestamp db) r1 ->
   fecha_inicio r2 <= end_or_now (current_timestamp db) r2 ->
   0 <= Overlap.overlap_seconds
          (reported_row (current_timestamp db) k1 r1 k2 r2))
  /\ (fecha_inicio r1 < end_or_now (current_timestamp db) r1 ->
      fecha_inicio r2 < end_or_now (current_timestamp db) r2 ->
      0 < Overlap.overlap_seconds
            (reported_row (current_timestamp db) k1 r1 k2 r2)).
Proof.
  intros Hin H1 H2.
  apply (reported_row_elem _ _ _ _ _ H1 H2) in Hin as (_ & _ & Ha & Hb).
  unfold reported_row, overlap_row, end_or_now in *. simpl. lia.
Qed.

Lemma overlap_seconds_sign_witness :
  0 <= Overlap.overlap_seconds
         (reported_row 40000 1 long_interval 2 instant_interval)
  /\ 0 < Overlap.overlap_seconds
           (reported_row 40000 1 long_interval 3 reopened_interval).
Proof.
  assert (trackings backdated_rescan !! 1 = Some long_interval) as E1
    by (vm_compute; reflexivity).
  assert (trackings backdated_rescan !! 2 = Some instant_interval) as E2
    by (vm_compute; reflexivity).
  assert (trackings backdated_rescan !! 3 = Some reopened_interval) as E3
    by (vm_compute; reflexivity).
  split.
  - apply (proj1 (overlap_seconds_sign backdated_rescan 1 long_interval 2
                    instant_interval ltac:(vm_compute; right; left) E1 E2));
      vm_compute; discriminate.
  - apply (proj2 (overlap_seconds_sign backdated_rescan 1 long_interval 3
                    reopened_interval ltac:(vm_compute; left) E1 E3));
      reflexivity.
Defined.

(** * Migration 002 *)

Lemma existsb_all_false {A : Type} (f : A -> bool) (l : list A) :
  (forall x, f x = false) -> existsb f l = false.
Proof. intros H. induction l as [| x l IH]; simpl; [done |]. by rewrite H, IH. Qed.

Lemma orphan_closed_passes now r :
  breaks_date_range (orphan_closed now r) = false.
Proof. unfold breaks_date_range, orphan_closed, hours. simpl. lia. Qed.

(** The statement always goes through: a row it closes leaves the unique
    index and ends after it started. *)
Lemma close_orphaned_run db :
  close_orphaned_trackings db =
  (Resolved tt,
   {| trackings :=
        (fun r => if orphaned db r
                  then orphan_closed (current_timestamp db) r else r)
          <$> trackings db;
      current_timestamp := current_timestamp db |}).
Proof.
  unfold close_orphaned_trackings, update_where.
  rewrite existsb_all_false
    by (intros kr; by rewrite orphan_closed_passes, andb_false_r).
  rewrite existsb_all_false; [done |].
  intros kr. unfold duplicates_open_key. simpl. by rewrite andb_false_r.
Qed.

Lemma has_newer_tracking_true db r :
  has_newer_tracking db r = true <->
  exists k' r', trackings db !! k' = Some r' /\ window r' = window r
                /\ fecha_inicio r < fecha_inicio r'.
Proof.
  unfold has_newer_tracking. rewrite existsb_exists. split.
  - intros ([k' r'] & Hin & Hc). apply list_elem_of_In, elem_of_rows in Hin.
    simpl in *. exists k', r'.
    rewrite !andb_true_iff, bool_decide_eq_true, !Z.eqb_eq, Z.gtb_gt in Hc.
    destruct Hc as [[[Hl Hi] Hv] Hgt].
    split; [done |]. split; [| lia]. unfold window. congruence.
  - intros (k' & r' & Hk & Hw & Hlt). exists (mkTrackingRecord k' r').
    split; [by apply list_elem_of_In, elem_of_rows |]. simpl.
    injection Hw as Hl Hi Hv.
    rewrite !andb_true_iff, bool_decide_eq_true, !Z.eqb_eq, Z.gtb_gt.
    repeat split; [done | done | done | lia].
Qed.

Lemma orphaned_stale db r : orphaned db r = true <-> stale db r.
Proof.
  unfold orphaned, stale.
  rewrite !andb_true_iff, negb_true_iff, Z.ltb_lt. split.
  - intros [[Ho Hold] Hnone]. split; [done |]. split; [done |].
    intros k' r' Hk Hw.
    destruct (Z_le_gt_dec (fecha_inicio r') (fecha_inicio r)); [done |].
    assert (has_newer_tracking db r = true) as Ht
      by (apply has_newer_tracking_true; exists k', r';
          repeat split; [done | done | lia]).
    congruence.
  - intros (Ho & Hold & Hlast). repeat split; [done | done |].
    destruct (has_newer_tracking db r) eqn:E; [| done].
    apply has_newer_tracking_true in E as (k' & r' & Hk & Hw & Hlt).
    specialize (Hlast _ _ Hk Hw). lia.
Qed.

Lemma close_orphaned_lookup db k :
  trackings (close_orphaned_trackings db).2 !! k
  = (fun r => if orphaned db r
              then orphan_closed (current_timestamp db) r else r)
      <$> trackings db !! k.
Proof. rewrite close_orphaned_run. simpl. apply lookup_fmap. Qed.

(** What step 2 of migration 002 does.  The [UPDATE] is never refused by
    the constraints of migration 001.  It closes exactly the orphaned
    intervals (open, started more than 24 hours ago, no later tracking of
    the same window) with reason AUTO_CLOSED_ORPHANED, at an end time that
    lies within the last hour before the server time and at least 24 hours
    after the interval's start; every other interval is exactly as before
    and no row is added or removed. *)
Theorem close_orphaned_trackings_effect db :
  exists db',
    close_orphaned_trackings db = (Resolved tt, db')
    /\ current_timestamp db' = current_timestamp db
    /\ (forall k, trackings db !! k = None -> trackings db' !! k = None)
    /\ forall k r,
         trackings db !! k = Some r ->
         (~ stale db r -> trackings db' !! k = Some r)
         /\ (stale db r ->
             exists e,
               trackings db' !! k = Some (orphan_closed (current_timestamp db) r)
               /\ fecha_final (orphan_closed (current_timestamp db) r) = Some e
               /\ closure_reason (orphan_closed (current_timestamp db) r)
                  = Some AUTO_CLOSED_ORPHANED
               /\ current_timestamp db - hours 1 <= e < current_timestamp db
               /\ fecha_inicio r + hours 24 <= e).
Proof.
  eexists. split; [apply close_orphaned_run |]. split; [done |]. split.
  - intros k Hk. simpl. by rewrite lookup_fmap, Hk.
  - intros k r Hk. simpl. rewrite lookup_fmap, Hk. simpl. split.
    + intros Hn. destruct (orphaned db r) eqn:E; [| done].
      by apply orphaned_stale in E.
    + intros Hs. pose proof Hs as (_ & Hold & _).
      apply orphaned_stale in Hs. rewrite Hs.
      eexists. split; [reflexivity |]. split; [reflexivity |].
      split; [reflexivity |]. unfold hours in *. lia.
Qed.

Lemma close_orphaned_rows db k r' :
  trackings (close_orphaned_trackings db).2 !! k = Some r' ->
  exists r, trackings db !! k = Some r
            /\ ((orphaned db r = false /\ r' = r)
                \/ (orphaned db r = true
                    /\ r' = orphan_closed (current_timestamp db) r)).
Proof.
  rewrite close_orphaned_lookup.
  destruct (trackings db !! k) as [r|]; [| done]. simpl.
  intros [= <-]. exists r. split; [done |].
  destruct (orphaned db r); [by right | by left].
Qed.

Lemma close_orphaned_same_newer db r :
  has_newer_tracking (close_orphaned_trackings db).2 r
  = has_newer_tracking db r.
Proof.
  apply eq_true_iff_eq. rewrite !has_newer_tracking_true. split.
  - intros (k' & r' & Hk & Hw & Hlt).
    destruct (close_orphaned_rows _ _ _ Hk) as (r0 & Hk0 & [[_ ->] | [_ ->]]);
      by exists k', r0.
  - intros (k' & r0 & Hk & Hw & Hlt).
    exists k'. rewrite close_orphaned_lookup, Hk. simpl.
    eexists. split; [reflexivity |]. by destruct (orphaned db r0).
Qed.

Lemma close_orphaned_none_left db k r :
  trackings (close_orphaned_trackings db).2 !! k = Some r ->
  orphaned (close_orphaned_trackings db).2 r = false.
Proof.
  intros Hk.
  destruct (close_orphaned_rows _ _ _ Hk) as (r0 & _ & [[Hn ->] | [_ ->]]).
  - unfold orphaned in *. rewrite close_orphaned_same_newer.
    by rewrite close_orphaned_run at 1.
  - done.
Qed.

(** After the migration no orphaned interval is left, and running it again
    at the same server time changes nothing. *)
Theorem close_orphaned_trackings_settles db :
  (forall k r, trackings (close_orphaned_trackings db).2 !! k = Some r ->
               ~ stale (close_orphaned_trackings db).2 r)
  /\ close_orphaned_trackings (close_orphaned_trackings db).2
     = (Resolved tt, (close_orphaned_trackings db).2).
Proof.
  split.
  - intros k r Hk Hs. apply orphaned_stale in Hs.
    rewrite (close_orphaned_none_left _ _ _ Hk) in Hs. done.
  - rewrite (close_orphaned_run (close_orphaned_trackings db).2).
    f_equal. rewrite close_orphaned_run at 3. cbn [snd].
    f_equal; [| by rewrite close_orphaned_run].
    apply map_eq. intros k. rewrite lookup_fmap.
    destruct (trackings (close_orphaned_trackings db).2 !! k) as [r|] eqn:E;
      rewrite close_orphaned_run in E; cbn [snd trackings] in E; rewrite E;
      [| done].
    simpl. f_equal.
    assert (trackings (close_orphaned_trackings db).2 !! k = Some r) as Hk
      by (by rewrite close_orphaned_run).
    by rewrite (close_orphaned_none_left _ _ _ Hk).
Qed.

Lemma close_orphaned_open_rows db k r :
  trackings (close_orphaned_trackings db).2 !! k = Some r ->
  is_open r = true ->
  trackings db !! k = Some r.
Proof.
  intros Hk Ho.
  destruct (close_orphaned_rows _ _ _ Hk) as (r0 & Hk0 & [[_ ->] | [_ ->]]);
    done.
Qed.

Lemma orphaned_open db r : orphaned db r = true -> is_open r = true.
Proof.
  unfold orphaned. rewrite !andb_true_iff. by intros [[? _] _].
Qed.

(** The migration respects the invariants of the data model: each of I1, I2,
    the unique index of migration 001 and I5 (no stored overlap) that holds
    before the [UPDATE] holds after it, and so do the row constraints I3
    and I4. *)
Theorem close_orphaned_trackings_keeps_invariants db :
  (exclusive_stations (trackings db) ->
   exclusive_stations (trackings (close_orphaned_trackings db).2))
  /\ (single_location (trackings db) ->
      single_location (trackings (close_orphaned_trackings db).2))
  /\ (unique_open_index (trackings db) ->
      unique_open_index (trackings (close_orphaned_trackings db).2))
  /\ (no_stored_overlap (trackings db) ->
      no_stored_overlap (trackings (close_orphaned_trackings db).2))
  /\ ((forall k r, trackings db !! k = Some r ->
                   valid_date_range r /\ closure_has_reason r) ->
      forall k r, trackings (close_orphaned_trackings db).2 !! k = Some r ->
                  valid_date_range r /\ closure_has_reason r).
Proof.
  assert (forall same, pairwise_open same (trackings db) ->
            pairwise_open same (trackings (close_orphaned_trackings db).2))
    as Hpair.
  { intros same Hp. eapply pairwise_open_subset; [exact Hp |].
    intros k r. apply close_orphaned_open_rows. }
  split; [apply Hpair |]. split; [apply Hpair |]. split; [apply Hpair |].
  split.
  - intros Hno k1 k2 r1' r2' H1 H2 Hne Hp.
    destruct (close_orphaned_rows _ _ _ H1) as (r1 & E1 & C1).
    destruct (close_orphaned_rows _ _ _ H2) as (r2 & E2 & C2).
    assert (puesto_id r1 = puesto_id r2) as Hp0.
    { destruct C1 as [[_ ->] | [_ ->]], C2 as [[_ ->] | [_ ->]]; exact Hp. }
    assert (forall a b a' b',
              (exists e, fecha_final a = Some e /\ e <= fecha_inicio b) ->
              (orphaned db a = false /\ a' = a)
              \/ (orphaned db a = true
                  /\ a' = orphan_closed (current_timestamp db) a) ->
              (orphaned db b = false /\ b' = b)
              \/ (orphaned db b = true
                  /\ b' = orphan_closed (current_timestamp db) b) ->
              exists e, fecha_final a' = Some e /\ e <= fecha_inicio b')
      as Hone.
    { intros a b a' b' (e & He & Hle) Ha Hb.
      assert (a' = a) as ->.
      { destruct Ha as [[_ ->] | [Ho _]]; [done |].
        apply orphaned_open in Ho. unfold is_open in Ho. by rewrite He in Ho. }
      exists e. split; [done |]. by destruct Hb as [[_ ->] | [_ ->]]. }
    destruct (Hno _ _ _ _ E1 E2 Hne Hp0) as [H | H];
      [left | right]; by eapply Hone.
  - intros Hok k r' Hk.
    destruct (close_orphaned_rows _ _ _ Hk) as (r & E & [[_ ->] | [_ ->]]).
    + by eapply Hok.
    + split.
      * intros e. unfold orphan_closed, hours. simpl. intros [= <-]. lia.
      * unfold closure_has_reason. simpl. split; discriminate.
Qed.

Lemma close_orphaned_trackings_keeps_invariants_witness :
  exclusive_stations (trackings (close_orphaned_trackings forgotten_db).2)
  /\ no_stored_overlap (trackings (close_orphaned_trackings forgotten_db).2).
Proof.
  pose proof (close_orphaned_trackings_keeps_invariants forgotten_db)
    as (H1 & _ & _ & H5 & _).
  assert (forall k r, trackings forgotten_db !! k = Some r ->
                      puesto_id r = k) as Hrows.
  { intros k r. unfold forgotten_db. rewrite !lookup_write.
    destruct (decide (2 = k)) as [<- |]; [by intros [= <-] |].
    destruct (decide (1 = k)) as [<- |]; [by intros [= <-] |].
    simpl. by rewrite lookup_empty. }
  split.
  - apply H1. intros k1 k2 r1 r2 E1 E2 _ _ Hp.
    apply Hrows in E1, E2. congruence.
  - apply H5. intros k1 k2 r1 r2 E1 E2 Hne Hp.
    apply Hrows in E1, E2. congruence.
Defined.

(** ** Rolling migration 002 back *)

Lemma existsb_false_elem {A : Type} (f : A -> bool) (l : list A) :
  (forall x, x ∈ l -> f x = false) -> existsb f l = false.
Proof.
  intros H. destruct (existsb f l) eqn:E; [| done].
  apply existsb_exists in E as (x & Hin & Hx).
  apply list_elem_of_In in Hin. rewrite (H x Hin) in Hx. done.
Qed.

(** Round trip of migration 002 and its documented rollback.  Take a table
    that satisfies the unique index and I4 and in which no interval carries
    the reason AUTO_CLOSED_ORPHANED yet.  Run the migration, then, at any
    later server time, the rollback.  The rollback is not refused, and every
    interval is back to the columns it had before the migration; the
    intervals the migration had closed differ only in [updated_at]. *)
Theorem rollback_restores_orphans db now2 :
  unique_open_index (trackings db) ->
  (forall k r, trackings db !! k = Some r ->
               closure_has_reason r
               /\ closure_reason r <> Some AUTO_CLOSED_ORPHANED) ->
  exists db2,
    rollback_orphaned_trackings
      (at_time now2 (close_orphaned_trackings db).2) = (Resolved tt, db2)
    /\ forall k,
         trackings db2 !! k
         = (fun r => if orphaned db r then touched now2 r else r)
             <$> trackings db !! k.
Proof.
  intros Hidx Hok.
  set (db1 := at_time now2 (close_orphaned_trackings db).2).
  set (cond := fun (_ : Db) (r : Row) =>
                 bool_decide (closure_reason r = Some AUTO_CLOSED_ORPHANED)).
  set (set_ := fun (d : Db) (r : Row) => reopened_row (current_timestamp d) r).
  set (updated := (fun r => if cond db1 r then set_ db1 r else r)
                    <$> trackings db1).
  (* every row of the rolled-back table, seen from the original table *)
  assert (forall k r', updated !! k = Some r' ->
            exists r, trackings db !! k = Some r
                      /\ r' = (if orphaned db r then touched now2 r else r)
                      /\ (cond db1 (default r (trackings db1 !! k)) = true ->
                          orphaned db r = true)) as Hrows.
  { intros k r'. unfold updated. rewrite lookup_fmap.
    unfold db1, at_time. cbn [trackings]. rewrite close_orphaned_lookup.
    destruct (trackings db !! k) as [r|] eqn:E; [| done]. simpl.
    intros [= <-]. exists r. split; [done |].
    destruct (Hok _ _ E) as [HI4 Hnot].
    destruct (orphaned db r) eqn:Eo.
    - split; [| done]. unfold cond, set_. simpl.
      pose proof (orphaned_open _ _ Eo) as Ho. unfold is_open in Ho.
      destruct (fecha_final r) as [e|] eqn:Hf; [done |].
      unfold touched, reopened_row. simpl.
      by rewrite Hf, (proj1 HI4 Hf).
    - unfold cond. by rewrite bool_decide_eq_false_2. }
  exists {| trackings := updated; current_timestamp := now2 |}. split.
  - unfold rollback_orphaned_trackings, update_where. fold cond set_ db1.
    fold updated.
    rewrite existsb_all_false by (intros kr; by rewrite andb_false_r).
    rewrite existsb_false_elem; [done |].
    intros [k r1] Hin. apply elem_of_map_to_list in Hin. cbn [fst snd].
    fold (cond db1 r1). fold updated.
    destruct (cond db1 r1) eqn:Hc; [| done]. simpl.
    unfold duplicates_open_key. simpl.
    apply existsb_false_elem. intros [kb rb'] Hb.
    apply elem_of_map_to_list in Hb. cbn [fst snd].
    destruct (Z.eqb_spec kb k) as [-> | Hne]; [done |]. simpl.
    destruct (is_open rb') eqn:Hob; [| done]. simpl.
    destruct (Z.eqb_spec (puesto_id rb') (puesto_id r1)) as [Hp | ];
      [| done]. simpl.
    apply bool_decide_eq_false. intros Hw.
    (* both rows were open in the original table, under the same key *)
    assert (exists r, trackings db !! k = Some r /\ is_open r = true
                      /\ puesto_id r = puesto_id r1 /\ window r = window r1)
      as (r & Hr & Hor & Hpr & Hwr).
    { assert (updated !! k = Some (set_ db1 r1)) as Hu
        by (unfold updated; rewrite lookup_fmap, Hin; simpl; by rewrite Hc).
      destruct (Hrows _ _ Hu) as (r & Hr & Heq & Horph).
      rewrite Hin in Horph. specialize (Horph Hc).
      exists r. split; [done |]. split; [by eapply orphaned_open |].
      unfold db1, at_time in Hin. cbn [trackings] in Hin.
      destruct (close_orphaned_rows _ _ _ Hin)
        as (r0 & Hr0 & [[Hn _] | [_ ->]]); [congruence |].
      assert (r0 = r) as -> by congruence. done. }
    assert (exists rb, trackings db !! kb = Some rb /\ is_open rb = true
                       /\ puesto_id rb = puesto_id rb'
                       /\ window rb = window rb')
      as (rb & Hrb & Horb & Hprb & Hwrb).
    { destruct (Hrows _ _ Hb) as (rb & Hrb & Heq & _).
      exists rb. split; [done |].
      destruct (orphaned db rb) eqn:Eo; subst rb'.
      - split; [by eapply orphaned_open | done].
      - done. }
    change (window rb' = window r1) in Hw.
    apply Hne. eapply Hidx; [exact Hrb | exact Hr | done | done |].
    split; congruence.
  - intros k. cbn [trackings].
    destruct (updated !! k) as [r'|] eqn:E.
    + destruct (Hrows _ _ E) as (r & Hr & -> & _). by rewrite Hr.
    + unfold updated in E. rewrite lookup_fmap in E.
      unfold db1, at_time in E. cbn [trackings] in E.
      rewrite close_orphaned_lookup in E.
      by destruct (trackings db !! k).
Qed.

Lemma rollback_restores_orphans_witness :
  exists db2,
    rollback_orphaned_trackings
      (at_time 210000 (close_orphaned_trackings forgotten_db).2)
    = (Resolved tt, db2)
    /\ trackings db2 !! 1 = Some (touched 210000 forgotten_interval)
    /\ trackings db2 !! 2 = Some recent_interval.
Proof.
  destruct (rollback_restores_orphans forgotten_db 210000)
    as (db2 & Hrun & Hrows).
  - intros k1 k2 r1 r2. unfold forgotten_db. rewrite !lookup_write.
    destruct (decide (2 = k1)) as [<- |], (decide (2 = k2)) as [<- |];
      [done | | |].
    + destruct (decide (1 = k2)) as [<- |];
        [by intros [= <-] [= <-] _ _ [? _] |]. simpl. by rewrite lookup_empty.
    + destruct (decide (1 = k1)) as [<- |];
        [by intros [= <-] [= <-] _ _ [? _] |]. simpl. by rewrite lookup_empty.
    + destruct (decide (1 = k1)) as [<- |], (decide (1 = k2)) as [<- |];
        simpl; rewrite ?lookup_empty; done.
  - intros k r. unfold forgotten_db. rewrite !lookup_write.
    destruct (decide (2 = k)) as [<- |]; [by intros [= <-] |].
    destruct (decide (1 = k)) as [<- |]; [by intros [= <-] |].
    simpl. by rewrite lookup_empty.
  - exists db2. split; [exact Hrun |]. rewrite !Hrows. split; reflexivity.
Defined.

(** * The two lookups of a scan, on their own *)

(** [findOpenTrackingInPuesto] only reads.  It answers [null] exactly when
    the workstation has no open interval; otherwise it answers a stored
    interval that is open at that workstation and started no earlier than any
    other open interval there. *)
Theorem findOpenTrackingInPuesto_answer puestoId db :
  exists o,
    findOpenTrackingInPuesto puestoId db = (Resolved o, db)
    /\ (o = None <->
        forall k r, trackings db !! k = Some r -> puesto_id r = puestoId ->
                    is_open r = false)
    /\ forall p, o = Some p ->
         trackings db !! id p = Some (row p)
         /\ puesto_id p = puestoId /\ is_open p = true
         /\ forall k r, trackings db !! k = Some r -> puesto_id r = puestoId ->
                        is_open r = true -> fecha_inicio r <= fecha_inicio p.
Proof.
  unfold findOpenTrackingInPuesto.
  destruct (select_latest_answer (open_in_puesto puestoId) db)
    as (o & -> & Ho).
  exists o. split; [done |]. split.
  - destruct o as [p|]; simpl in Ho.
    + split; [done |]. intros Hnone. destruct Ho as (Hp & Hc & _).
      unfold open_in_puesto in Hc. apply andb_true_iff in Hc as [Hs Hop].
      apply Z.eqb_eq in Hs. rewrite (Hnone _ _ Hp Hs) in Hop. done.
    + split; [| done]. intros _ k r Hk Hs.
      specialize (Ho k r Hk). unfold open_in_puesto in Ho. simpl in Ho.
      apply andb_false_iff in Ho as [Ho | Ho]; [| done].
      apply Z.eqb_neq in Ho. done.
  - intros p ->. simpl in Ho. destruct Ho as (Hp & Hc & Hmax).
    unfold open_in_puesto in Hc. apply andb_true_iff in Hc as [Hs Hop].
    apply Z.eqb_eq in Hs. repeat split; [done | done | done |].
    intros k r Hk Hsr Hor.
    assert (open_in_puesto puestoId (mkTrackingRecord k r) = true) as Hcr.
    { unfold open_in_puesto. simpl. rewrite Hor, andb_true_r.
      by apply Z.eqb_eq. }
    specialize (Hmax k r Hk Hcr). unfold sorts_before in Hmax. simpl in Hmax.
    apply orb_false_iff in Hmax as [Hlt _]. lia.
Qed.

